(** * gemini-chatbot: the relay service (server.js) and the chat client script

    A shallow embedding of the two source files.

    - [Relay] follows [server.js]: the CORS middleware, the three routes and
      the [/api/gemini] handler, written in a small handler monad that keeps
      the early [return]s, the [try]/[catch] and the log of outbound [fetch]
      calls.  [RelayApp] puts the two body parsers and Express's choice of
      the route in front of them.
    - [ChatClient] follows the browser script: its four script variables,
      the part of the page it owns, and one transition per event listener,
      promise callback and timer callback.

    The page is modelled as far as the script builds it element by element:
    the children of the chat list, with what the script writes to them.
    The elements that [innerHTML] creates inside them from the markup of
    prompts and replies are not.  The two operations of the script that
    look at the whole document, [document.querySelector(".loading")] and
    the decoration by [hljs.highlightAll] and [addCopyIconToCodeBlocks],
    take what they meet there from a parameter, [ChatClient.Document];
    every property below holds whatever that parameter is.

    Outside the model: [console.log], scrolling, the theme toggle, the attach
    button (it only opens the file picker), the clipboard and the copy
    icons' click listeners, and what the decoration adds inside the markup
    (whether it throws is kept). *)

From Stdlib Require Import ZArith NArith String Ascii List Lia Bool.
From Stdlib.Strings Require Import Byte.
From Stdlib Require Import DecimalString.
From stdpp Require Import base option list gmap strings.
Import ListNotations.
Local Open Scope string_scope.
Local Open Scope list_scope.
Set Warnings "-register-all".

(** ** JavaScript values and the operators the two files use on them *)

Module Js.

(** Values that [JSON.parse], multer's field parser and [process.env] hand to
    the code.  Numbers are JSON numbers; the code only ever tests a number
    for truthiness, so an integer stands for it (every non-zero number,
    fractional or not, is truthy). *)
Inductive JsVal : Type :=
| JUndefined
| JNull
| JBool (b : bool)
| JNum (n : Z)
| JStr (s : string)
| JArr (items : list JsVal)
| JObj (fields : list (string * JsVal)).

(** [ToBoolean]: what [if (v)], [!v], [v && w] and [v || w] look at. *)
Definition truthy (v : JsVal) : bool :=
  match v with
  | JUndefined | JNull => false
  | JBool b => b
  | JNum n => negb (n =? 0)%Z
  | JStr s => negb (String.eqb s "")
  | JArr _ | JObj _ => true
  end.

(** [a || b] and [a && b]; both operands are values here, so evaluating [b]
    eagerly is harmless. *)
Definition js_or (a b : JsVal) : JsVal := if truthy a then a else b.
Definition js_and (a b : JsVal) : JsVal := if truthy a then b else a.

Fixpoint lookup_field (name : string) (fields : list (string * JsVal)) : JsVal :=
  match fields with
  | [] => JUndefined
  | (k, v) :: rest => if String.eqb k name then v else lookup_field name rest
  end.

(** [v.name] for the property names the code reads ([prompt], [candidates],
    [content], [parts], [text]): an own property of an object, [undefined]
    on arrays and primitives.  On [null] and [undefined] the access would
    throw; every use in the sources is guarded by [&&] or [?.], and
    [get_prop] answers [undefined] there. *)
Definition get_prop (v : JsVal) (name : string) : JsVal :=
  match v with
  | JObj fields => lookup_field name fields
  | _ => JUndefined
  end.

(** [v?.name] *)
Definition opt_prop (v : JsVal) (name : string) : JsVal :=
  match v with
  | JUndefined | JNull => JUndefined
  | _ => get_prop v name
  end.

(** [v?.[0]]: the first element of an array, the first character of a
    string, the property ["0"] of an object. *)
Definition opt_first (v : JsVal) : JsVal :=
  match v with
  | JArr (x :: _) => x
  | JStr (String c _) => JStr (String c "")
  | JObj fields => lookup_field "0" fields
  | _ => JUndefined
  end.

(** A string-or-undefined variable ([process.env.X], [file.mimetype]) used
    as a condition, and [s || fallback] on it. *)
Definition truthy_str (s : option string) : bool :=
  match s with
  | Some s => negb (String.eqb s "")
  | None => false
  end.

Definition str_or (s : option string) (fallback : string) : string :=
  match s with
  | Some s => if String.eqb s "" then fallback else s
  | None => fallback
  end.

(** A template literal hole [${v}] holding a string or [null]. *)
Definition interpolate (s : option string) : string :=
  match s with
  | Some s => s
  | None => "null"
  end.

End Js.
Import Js.

(** ** Base64, as [Buffer.prototype.toString('base64')] produces it *)

Module Base64.

Definition alphabet : string :=
  "ABCDEFGHIJKLMNOPQRSTUVWXYZabcdefghijklmnopqrstuvwxyz0123456789+/".

(** The character for a 6-bit group. *)
Definition digit (n : N) : ascii :=
  match String.get (N.to_nat (N.land n 63)) alphabet with
  | Some c => c
  | None => "="%char
  end.

Definition group (b0 b1 b2 : Byte.byte) : N :=
  N.lor (N.shiftl (Byte.to_N b0) 16)
        (N.lor (N.shiftl (Byte.to_N b1) 8) (Byte.to_N b2)).

Fixpoint encode (bytes : list Byte.byte) : string :=
  match bytes with
  | [] => ""
  | [b0] =>
      let n := group b0 Byte.x00 Byte.x00 in
      String (digit (N.shiftr n 18)) (String (digit (N.shiftr n 12)) "==")
  | [b0; b1] =>
      let n := group b0 b1 Byte.x00 in
      String (digit (N.shiftr n 18)) (String (digit (N.shiftr n 12))
        (String (digit (N.shiftr n 6)) "="))
  | b0 :: b1 :: b2 :: rest =>
      let n := group b0 b1 b2 in
      String (digit (N.shiftr n 18)) (String (digit (N.shiftr n 12))
        (String (digit (N.shiftr n 6)) (String (digit n) (encode rest))))
  end.

Definition bytes_of_string (s : string) : list Byte.byte :=
  map byte_of_ascii (list_ascii_of_string s).

End Base64.

(** ** What [fetch] hands back, on either side *)

Module Fetch.

(** [await response.json()] resolves to the parsed body or rejects. *)
Inductive Parsed :=
| Json (v : JsVal)
| NotJson (message : string).

Record Response := { response_status : Z; response_json : Parsed }.

(** [response.ok]: the status is in the range 200-299. *)
Definition ok (r : Response) : bool :=
  (200 <=? response_status r)%Z && (response_status r <=? 299)%Z.

(** [await fetch(...)] resolves to a response or rejects. *)
Inductive FetchResult :=
| Resolved (r : Response)
| Rejected (message : string).

(** [`${response.status}`] *)
Definition status_text (r : Response) : string :=
  NilZero.string_of_int (Z.to_int (response_status r)).

End Fetch.
Import Fetch.

(** ** The relay service *)

Module Relay.

(** [req.file], as multer's memory storage leaves it. *)
Record UploadedFile := {
  originalname : string;
  mimetype : option string;
  buffer : list Byte.byte
}.

(** What the handlers read of an incoming request: the method, the [Origin]
    header, and [req.body] / [req.file] as [express.json()] and
    [upload.single('image')] have left them. *)
Record Request := {
  method : string;
  origin : option string;
  body : JsVal;
  file : option UploadedFile
}.

(** [process.env] *)
Record Env := { API_KEY : option string }.

Inductive Body :=
| JsonBody (v : JsVal)      (* res.json(v) *)
| TextBody (s : string).    (* res.send(s) *)

(** A sent response: [res.status(code)] and the body. *)
Record Reply := { status : Z; payload : Body }.

(** *** The upstream API, seen through [fetch] *)

Record FetchCall := {
  url : string;
  fetch_method : string;
  fetch_headers : list (string * string);
  fetch_body : JsVal          (* the argument of JSON.stringify *)
}.

Definition Upstream := FetchCall -> FetchResult.

(** *** Handler monad

    A handler statement either falls through to the next statement, leaves
    the handler having sent a reply, or throws.  Every statement sees the
    upstream and extends the log of [fetch] calls made so far. *)

Inductive Completion (A : Type) :=
| Normal (a : A)
| Sent (r : Reply)
| Throw (message : string).
Arguments Normal {A} a.
Arguments Sent {A} r.
Arguments Throw {A} message.

Definition Handler (A : Type) : Type :=
  Upstream -> list FetchCall -> Completion A * list FetchCall.

Definition ret {A} (a : A) : Handler A := fun _ log => (Normal a, log).

Definition bind {A B} (m : Handler A) (k : A -> Handler B) : Handler B :=
  fun up log =>
    match m up log with
    | (Normal a, log') => k a up log'
    | (Sent r, log') => (Sent r, log')
    | (Throw e, log') => (Throw e, log')
    end.

#[export] Instance handler_ret : MRet Handler := @ret.
#[export] Instance handler_bind : MBind Handler := fun A B k m => bind m k.

(** [return res.status(code).json(v)] (and a final [res.json(v)]). *)
Definition send_json {A} (code : Z) (v : JsVal) : Handler A :=
  fun _ log => (Sent {| status := code; payload := JsonBody v |}, log).

(** [try { m } catch (error) { h error.message }] *)
Definition try_catch {A} (m : Handler A) (h : string -> Handler A) : Handler A :=
  fun up log =>
    match m up log with
    | (Throw e, log') => h e up log'
    | done => done
    end.

(** [await fetch(url, { method: 'POST', headers: {...}, body: JSON.stringify(v) })] *)
Definition fetch_post (u : string) (v : JsVal) : Handler Response :=
  fun up log =>
    let call := {| url := u; fetch_method := "POST";
                   fetch_headers := [("Content-Type", "application/json")];
                   fetch_body := v |} in
    match up call with
    | Resolved r => (Normal r, log ++ [call])
    | Rejected e => (Throw e, log ++ [call])
    end.

(** [await response.json()] *)
Definition json (r : Response) : Handler JsVal :=
  fun _ log =>
    match response_json r with
    | Json v => (Normal v, log)
    | NotJson e => (Throw e, log)
    end.

(** *** Constants of the source *)

Definition allowed_origin : string := "http://127.0.0.1:5500".

Definition api_url (key : string) : string :=
  "https://generativelanguage.googleapis.com/v1/models/gemini-2.5-flash:generateContent?key="
  +:+ key.

Definition default_prompt : string :=
  "What is in this image? Describe it in detail.".

Definition error_json (message : string) : JsVal :=
  JObj [("error", JStr message)].

(** [const prompt = req.body && req.body.prompt] *)
Definition prompt_of (req : Request) : JsVal :=
  js_and (body req) (get_prop (body req) "prompt").

(** The object literal [multimodalRequest]. *)
Definition multimodalRequest (mimeType base64Image : string) (prompt : JsVal) : JsVal :=
  JObj [("contents", JArr [
    JObj [("parts", JArr [
      JObj [("inline_data", JObj [("mime_type", JStr mimeType);
                                  ("data", JStr base64Image)])];
      JObj [("text", js_or prompt (JStr default_prompt))]
    ])]
  ])].

(** The object literal [data] of the text-only branch. *)
Definition textRequest (prompt : JsVal) : JsVal :=
  JObj [("contents", JArr [ JObj [("parts", JArr [ JObj [("text", prompt)] ])] ])].

(** The tail both branches share: relay the upstream's answer. *)
Definition relay_response (response : Response) : Handler unit :=
  if negb (ok response) then
    errorData ← json response;
    send_json (response_status response)
      (JObj [("error", JStr "Gemini API request failed"); ("details", errorData)])
  else
    responseData ← json response;
    send_json 200 responseData.

(** [app.post('/api/gemini', upload.single('image'), async (req, res) => ...)] *)
Definition gemini (env : Env) (req : Request) : Handler unit :=
  try_catch
    (let prompt := prompt_of req in
     match file req with
     | Some file =>
         let base64Image := Base64.encode (buffer file) in
         let mimeType := str_or (mimetype file) "image/jpeg" in
         if negb (truthy_str (API_KEY env)) then
           send_json 500 (error_json "API_KEY not configured in .env file")
         else
           response ← fetch_post (api_url (interpolate (API_KEY env)))
                                  (multimodalRequest mimeType base64Image prompt);
           relay_response response
     | None =>
         if negb (truthy prompt) then
           send_json 400 (error_json "Prompt is required when no image is uploaded")
         else if negb (truthy_str (API_KEY env)) then
           send_json 500 (error_json "API_KEY not configured in .env file")
         else
           response ← fetch_post (api_url (interpolate (API_KEY env)))
                                  (textRequest prompt);
           relay_response response
     end)
    (fun message =>
       send_json 500 (JObj [("error", JStr "Internal server error");
                            ("message", JStr message)])).

(** [app.get('/')] and [app.get('/api/config')] *)
Definition root : Handler unit :=
  send_json 200 (JObj [("message", JStr "Gemini API Server is running")]).

Definition config (env : Env) : Handler unit :=
  send_json 200 (JObj [("API_KEY", match API_KEY env with
                                   | Some k => JStr k
                                   | None => JUndefined
                                   end)]).

(** *** The CORS middleware *)

(** The three [res.header] calls. *)
Definition cors_headers : list (string * string) :=
  [("Access-Control-Allow-Origin", allowed_origin);
   ("Access-Control-Allow-Methods", "GET, POST, OPTIONS");
   ("Access-Control-Allow-Headers", "Content-Type")].

Inductive Middleware :=
| Respond (r : Reply)     (* the middleware answered itself *)
| Next.                   (* next() *)

(** [res.sendStatus(200)]: Express sets the status and sends the status
    text of the code as the body. *)
Definition sendStatus_200 : Reply := {| status := 200; payload := TextBody "OK" |}.

Definition cors (req : Request) : list (string * string) * Middleware :=
  (cors_headers,
   if String.eqb (method req) "OPTIONS" then Respond sendStatus_200 else Next).

(** *** The application *)

(** The route Express selects for a request's method and path. *)
Inductive Route :=
| GetRoot
| GetConfig
| PostGemini
| NoRoute.

(** What the client receives, with the [fetch] calls made on the way. *)
Record Served := {
  headers : list (string * string);
  reply : option Reply;          (* None: left to Express's final handler *)
  outbound : list FetchCall
}.

Definition run (hdrs : list (string * string)) (h : Handler unit) (up : Upstream) : Served :=
  match h up [] with
  | (Sent r, log) => {| headers := hdrs; reply := Some r; outbound := log |}
  | (_, log) => {| headers := hdrs; reply := None; outbound := log |}
  end.

(** The application from the CORS middleware on, for a request whose body
    [express.json()] has let through and for which Express selects [route]
    ([RelayApp.app] puts the body parser and the choice of the route in
    front). *)
Definition serve (env : Env) (up : Upstream) (route : Route) (req : Request) : Served :=
  match cors req with
  | (hdrs, Respond r) => {| headers := hdrs; reply := Some r; outbound := [] |}
  | (hdrs, Next) =>
      match route with
      | GetRoot => run hdrs root up
      | GetConfig => run hdrs (config env) up
      | PostGemini => run hdrs (gemini env req) up
      | NoRoute => {| headers := hdrs; reply := None; outbound := [] |}
      end
  end.

(** A request to the path [/api/gemini], from the CORS middleware on.
    [app.post] registers the handler for POST only: any other method finds
    no route there. *)
Definition generate (env : Env) (up : Upstream) (req : Request) : Served :=
  serve env up (if String.eqb (method req) "POST" then PostGemini else NoRoute) req.

(** *** Vocabulary for the properties below *)

Definition missing_input : Reply :=
  {| status := 400;
     payload := JsonBody (error_json "Prompt is required when no image is uploaded") |}.

Definition not_configured : Reply :=
  {| status := 500;
     payload := JsonBody (error_json "API_KEY not configured in .env file") |}.

(** The [fetch] call both branches make, for a given body. *)
Definition upstream_call (key : string) (v : JsVal) : FetchCall :=
  {| url := api_url key; fetch_method := "POST";
     fetch_headers := [("Content-Type", "application/json")];
     fetch_body := v |}.

(** The body the handler builds when it does call the upstream. *)
Definition request_body (req : Request) : JsVal :=
  match file req with
  | Some f => multimodalRequest (str_or (mimetype f) "image/jpeg")
                                (Base64.encode (buffer f)) (prompt_of req)
  | None => textRequest (prompt_of req)
  end.

(** Input validation passes: an image, or a truthy prompt. *)
Definition valid_input (req : Request) : bool :=
  bool_decide (is_Some (file req)) || truthy (prompt_of req).

(** "Rejected at the boundary": the middleware answers the request itself,
    with a status outside 200-299, instead of passing it on. *)
Definition rejected_at_boundary (req : Request) : Prop :=
  exists r, snd (cors req) = Respond r /\ ((status r < 200)%Z \/ (299 < status r)%Z).

(** The same request, sent from another origin. *)
Definition from_origin (o : option string) (req : Request) : Request :=
  {| method := method req; origin := o; body := body req; file := file req |}.

(** The parts of the single content of an upstream body, and the values of
    its text parts. *)
Definition parts_of (v : JsVal) : list JsVal :=
  match get_prop v "contents" with
  | JArr [content] =>
      match get_prop content "parts" with
      | JArr parts => parts
      | _ => []
      end
  | _ => []
  end.

Definition text_of_parts (v : JsVal) : list JsVal :=
  omap (fun part => match get_prop part "text" with
                    | JUndefined => None
                    | t => Some t
                    end) (parts_of v).

(** The text part of a multimodal body as the specification words it: the
    supplied prompt, or the default when no prompt field was supplied. *)
Definition text_part_as_specified (req : Request) : JsVal :=
  match get_prop (body req) "prompt" with
  | JUndefined => JStr default_prompt
  | supplied => supplied
  end.

End Relay.

(** ** Strings: [trim] and [split(" ")]

    Strings are sequences of code units below 256. *)

Module Str.

(** White space that [String.prototype.trim] strips: tab, line feed,
    vertical tab, form feed, carriage return, space, no-break space. *)
Definition is_space (c : ascii) : bool :=
  let n := nat_of_ascii c in
  ((9 <=? n)%nat && (n <=? 13)%nat) || (n =? 32)%nat || (n =? 160)%nat.

Fixpoint trim_start (s : string) : string :=
  match s with
  | String c rest => if is_space c then trim_start rest else s
  | EmptyString => EmptyString
  end.

Fixpoint trim_end (s : string) : string :=
  match s with
  | String c rest =>
      match trim_end rest with
      | EmptyString => if is_space c then EmptyString else String c EmptyString
      | kept => String c kept
      end
  | EmptyString => EmptyString
  end.

Definition trim (s : string) : string := trim_end (trim_start s).

(** [s.split(" ")]: cut at every single space; never the empty array. *)
Fixpoint split (s : string) : list string :=
  match s with
  | EmptyString => [EmptyString]
  | String c rest =>
      if Ascii.eqb c " " then EmptyString :: split rest
      else match split rest with
           | word :: words => String c word :: words
           | [] => [String c EmptyString]
           end
  end.

(** [words[i]] inside a string concatenation: past the end it reads
    [undefined]. *)
Definition word_at (words : list string) (i : nat) : string :=
  nth i words "undefined".

End Str.

(** ** The chat client *)

Module ChatClient.

(** A [File] picked in the file input; the script never looks inside. *)
Record File := { file_name : string; file_type : string }.

(** [URL.createObjectURL(file)]: every call mints a new URL for the file. *)
Record ObjectUrl := { url_id : nat; url_file : File }.

(** What the [.text] paragraph of a message holds, by the writes that
    produced it. *)
Inductive Content :=
| Html (html : string)                    (* innerHTML = html *)
| Text (s : string)                       (* innerText = s *)
| Appended (c : Content) (piece : string). (* innerText += piece *)

(** The pieces [+=] has added since the last plain assignment. *)
Fixpoint pieces (c : Content) : list string :=
  match c with
  | Appended c piece => pieces c ++ [piece]
  | _ => []
  end.

(** A child of [.chat-list], as the three HTML templates of the script
    build it. *)
Record Message := {
  classes : list string;            (* of the message div *)
  avatar : string;                  (* src of the avatar image *)
  text : Content;                   (* the .text paragraph *)
  text_error : bool;                (* .text carries the class "error" *)
  attached : option ObjectUrl;      (* .attached-image, if any *)
  loading_indicator : bool;         (* the three loading bars *)
  copy_icon : option bool           (* the copy icon, if any: is it hidden? *)
}.

(** An entry of [chatHistory]. *)
Record Exchange := {
  userMessage : option string;
  apiResponse : JsVal;
  imageUrl : option ObjectUrl
}.

(** The body of the request [processPrompt] sends. *)
Inductive RequestBody :=
| FormData (promptField : string) (image : File)
| JsonData (v : JsVal).

(** A [fetch] whose promise has not settled yet, with the [userPrompt] its
    callbacks closed over. *)
Record Pending := { userPrompt : option string; sent : RequestBody }.

(** The closure of a running [setInterval] callback of [showTypingEffect]. *)
Record Typing := {
  words : list string;
  currWordIndex : nat;
  incomingMessageDiv : nat;
  parsedText : string
}.

(** The script variables, the part of the page the script reads and writes,
    and the work the browser still owes the script.  Message elements live in
    [elements] under their identity; [chatList] lists the ones currently
    attached to the page, so that a callback can keep writing to an element
    after it has left the list. *)
Record State := {
  prompt : option string;
  isResponseGenerating : bool;
  chatHistory : list Exchange;
  attachedImageFile : option File;
  elements : gmap nat Message;
  nextElement : nat;
  chatList : list nat;               (* children of .chat-list *)
  imagePreview : list ObjectUrl;     (* preview wrappers in #image-preview *)
  promptInput : string;              (* value of #prompt *)
  imageInput : list File;            (* files of #image-input *)
  hideHeader : bool;                 (* body has the class "hide-header" *)
  objectUrls : nat;                  (* object URLs minted so far *)
  loadingTimers : nat;               (* setTimeout(showLoadingAnimation) pending *)
  requests : list Pending;
  intervals : gmap nat Typing;
  nextInterval : nat;
  lookups : nat                      (* whole-document operations run so far *)
}.

Definition set_prompt (v : option string) (st : State) : State :=
  {| prompt := v; isResponseGenerating := isResponseGenerating st;
     chatHistory := chatHistory st; attachedImageFile := attachedImageFile st;
     elements := elements st; nextElement := nextElement st; chatList := chatList st;
     imagePreview := imagePreview st; promptInput := promptInput st;
     imageInput := imageInput st; hideHeader := hideHeader st;
     objectUrls := objectUrls st; loadingTimers := loadingTimers st;
     requests := requests st; intervals := intervals st;
     nextInterval := nextInterval st;
     lookups := lookups st |}.

Definition set_isResponseGenerating (v : bool) (st : State) : State :=
  {| prompt := prompt st; isResponseGenerating := v; chatHistory := chatHistory st;
     attachedImageFile := attachedImageFile st; elements := elements st;
     nextElement := nextElement st; chatList := chatList st;
     imagePreview := imagePreview st; promptInput := promptInput st;
     imageInput := imageInput st; hideHeader := hideHeader st;
     objectUrls := objectUrls st; loadingTimers := loadingTimers st;
     requests := requests st; intervals := intervals st;
     nextInterval := nextInterval st;
     lookups := lookups st |}.

Definition set_chatHistory (v : list Exchange) (st : State) : State :=
  {| prompt := prompt st; isResponseGenerating := isResponseGenerating st;
     chatHistory := v; attachedImageFile := attachedImageFile st;
     elements := elements st; nextElement := nextElement st; chatList := chatList st;
     imagePreview := imagePreview st; promptInput := promptInput st;
     imageInput := imageInput st; hideHeader := hideHeader st;
     objectUrls := objectUrls st; loadingTimers := loadingTimers st;
     requests := requests st; intervals := intervals st;
     nextInterval := nextInterval st;
     lookups := lookups st |}.

Definition set_attachedImageFile (v : option File) (st : State) : State :=
  {| prompt := prompt st; isResponseGenerating := isResponseGenerating st;
     chatHistory := chatHistory st; attachedImageFile := v; elements := elements st;
     nextElement := nextElement st; chatList := chatList st;
     imagePreview := imagePreview st; promptInput := promptInput st;
     imageInput := imageInput st; hideHeader := hideHeader st;
     objectUrls := objectUrls st; loadingTimers := loadingTimers st;
     requests := requests st; intervals := intervals st;
     nextInterval := nextInterval st;
     lookups := lookups st |}.

Definition set_elements (v : gmap nat Message) (st : State) : State :=
  {| prompt := prompt st; isResponseGenerating := isResponseGenerating st;
     chatHistory := chatHistory st; attachedImageFile := attachedImageFile st;
     elements := v; nextElement := nextElement st; chatList := chatList st;
     imagePreview := imagePreview st; promptInput := promptInput st;
     imageInput := imageInput st; hideHeader := hideHeader st;
     objectUrls := objectUrls st; loadingTimers := loadingTimers st;
     requests := requests st; intervals := intervals st;
     nextInterval := nextInterval st;
     lookups := lookups st |}.

Definition set_nextElement (v : nat) (st : State) : State :=
  {| prompt := prompt st; isResponseGenerating := isResponseGenerating st;
     chatHistory := chatHistory st; attachedImageFile := attachedImageFile st;
     elements := elements st; nextElement := v; chatList := chatList st;
     imagePreview := imagePreview st; promptInput := promptInput st;
     imageInput := imageInput st; hideHeader := hideHeader st;
     objectUrls := objectUrls st; loadingTimers := loadingTimers st;
     requests := requests st; intervals := intervals st;
     nextInterval := nextInterval st;
     lookups := lookups st |}.

Definition set_chatList (v : list nat) (st : State) : State :=
  {| prompt := prompt st; isResponseGenerating := isResponseGenerating st;
     chatHistory := chatHistory st; attachedImageFile := attachedImageFile st;
     elements := elements st; nextElement := nextElement st; chatList := v;
     imagePreview := imagePreview st; promptInput := promptInput st;
     imageInput := imageInput st; hideHeader := hideHeader st;
     objectUrls := objectUrls st; loadingTimers := loadingTimers st;
     requests := requests st; intervals := intervals st;
     nextInterval := nextInterval st;
     lookups := lookups st |}.

Definition set_imagePreview (v : list ObjectUrl) (st : State) : State :=
  {| prompt := prompt st; isResponseGenerating := isResponseGenerating st;
     chatHistory := chatHistory st; attachedImageFile := attachedImageFile st;
     elements := elements st; nextElement := nextElement st; chatList := chatList st;
     imagePreview := v; promptInput := promptInput st; imageInput := imageInput st;
     hideHeader := hideHeader st; objectUrls := objectUrls st;
     loadingTimers := loadingTimers st; requests := requests st;
     intervals := intervals st; nextInterval := nextInterval st;
     lookups := lookups st |}.

Definition set_promptInput (v : string) (st : State) : State :=
  {| prompt := prompt st; isResponseGenerating := isResponseGenerating st;
     chatHistory := chatHistory st; attachedImageFile := attachedImageFile st;
     elements := elements st; nextElement := nextElement st; chatList := chatList st;
     imagePreview := imagePreview st; promptInput := v; imageInput := imageInput st;
     hideHeader := hideHeader st; objectUrls := objectUrls st;
     loadingTimers := loadingTimers st; requests := requests st;
     intervals := intervals st; nextInterval := nextInterval st;
     lookups := lookups st |}.

Definition set_imageInput (v : list File) (st : State) : State :=
  {| prompt := prompt st; isResponseGenerating := isResponseGenerating st;
     chatHistory := chatHistory st; attachedImageFile := attachedImageFile st;
     elements := elements st; nextElement := nextElement st; chatList := chatList st;
     imagePreview := imagePreview st; promptInput := promptInput st; imageInput := v;
     hideHeader := hideHeader st; objectUrls := objectUrls st;
     loadingTimers := loadingTimers st; requests := requests st;
     intervals := intervals st; nextInterval := nextInterval st;
     lookups := lookups st |}.

Definition set_hideHeader (v : bool) (st : State) : State :=
  {| prompt := prompt st; isResponseGenerating := isResponseGenerating st;
     chatHistory := chatHistory st; attachedImageFile := attachedImageFile st;
     elements := elements st; nextElement := nextElement st; chatList := chatList st;
     imagePreview := imagePreview st; promptInput := promptInput st;
     imageInput := imageInput st; hideHeader := v; objectUrls := objectUrls st;
     loadingTimers := loadingTimers st; requests := requests st;
     intervals := intervals st; nextInterval := nextInterval st;
     lookups := lookups st |}.

Definition set_objectUrls (v : nat) (st : State) : State :=
  {| prompt := prompt st; isResponseGenerating := isResponseGenerating st;
     chatHistory := chatHistory st; attachedImageFile := attachedImageFile st;
     elements := elements st; nextElement := nextElement st; chatList := chatList st;
     imagePreview := imagePreview st; promptInput := promptInput st;
     imageInput := imageInput st; hideHeader := hideHeader st; objectUrls := v;
     loadingTimers := loadingTimers st; requests := requests st;
     intervals := intervals st; nextInterval := nextInterval st;
     lookups := lookups st |}.

Definition set_loadingTimers (v : nat) (st : State) : State :=
  {| prompt := prompt st; isResponseGenerating := isResponseGenerating st;
     chatHistory := chatHistory st; attachedImageFile := attachedImageFile st;
     elements := elements st; nextElement := nextElement st; chatList := chatList st;
     imagePreview := imagePreview st; promptInput := promptInput st;
     imageInput := imageInput st; hideHeader := hideHeader st;
     objectUrls := objectUrls st; loadingTimers := v; requests := requests st;
     intervals := intervals st; nextInterval := nextInterval st;
     lookups := lookups st |}.

Definition set_requests (v : list Pending) (st : State) : State :=
  {| prompt := prompt st; isResponseGenerating := isResponseGenerating st;
     chatHistory := chatHistory st; attachedImageFile := attachedImageFile st;
     elements := elements st; nextElement := nextElement st; chatList := chatList st;
     imagePreview := imagePreview st; promptInput := promptInput st;
     imageInput := imageInput st; hideHeader := hideHeader st;
     objectUrls := objectUrls st; loadingTimers := loadingTimers st; requests := v;
     intervals := intervals st; nextInterval := nextInterval st;
     lookups := lookups st |}.

Definition set_intervals (v : gmap nat Typing) (st : State) : State :=
  {| prompt := prompt st; isResponseGenerating := isResponseGenerating st;
     chatHistory := chatHistory st; attachedImageFile := attachedImageFile st;
     elements := elements st; nextElement := nextElement st; chatList := chatList st;
     imagePreview := imagePreview st; promptInput := promptInput st;
     imageInput := imageInput st; hideHeader := hideHeader st;
     objectUrls := objectUrls st; loadingTimers := loadingTimers st;
     requests := requests st; intervals := v; nextInterval := nextInterval st;
     lookups := lookups st |}.

Definition set_nextInterval (v : nat) (st : State) : State :=
  {| prompt := prompt st; isResponseGenerating := isResponseGenerating st;
     chatHistory := chatHistory st; attachedImageFile := attachedImageFile st;
     elements := elements st; nextElement := nextElement st; chatList := chatList st;
     imagePreview := imagePreview st; promptInput := promptInput st;
     imageInput := imageInput st; hideHeader := hideHeader st;
     objectUrls := objectUrls st; loadingTimers := loadingTimers st;
     requests := requests st; intervals := intervals st; nextInterval := v;
     lookups := lookups st |}.

Definition set_lookups (v : nat) (st : State) : State :=
  {| prompt := prompt st; isResponseGenerating := isResponseGenerating st;
     chatHistory := chatHistory st; attachedImageFile := attachedImageFile st;
     elements := elements st; nextElement := nextElement st; chatList := chatList st;
     imagePreview := imagePreview st; promptInput := promptInput st;
     imageInput := imageInput st; hideHeader := hideHeader st;
     objectUrls := objectUrls st; loadingTimers := loadingTimers st;
     requests := requests st; intervals := intervals st;
     nextInterval := nextInterval st; lookups := v |}.

(** Writes to a message element. *)
Definition with_classes (v : list string) (m : Message) : Message :=
  {| classes := v; avatar := avatar m; text := text m; text_error := text_error m;
     attached := attached m; loading_indicator := loading_indicator m;
     copy_icon := copy_icon m |}.

Definition with_text (v : Content) (m : Message) : Message :=
  {| classes := classes m; avatar := avatar m; text := v; text_error := text_error m;
     attached := attached m; loading_indicator := loading_indicator m;
     copy_icon := copy_icon m |}.

Definition with_text_error (v : bool) (m : Message) : Message :=
  {| classes := classes m; avatar := avatar m; text := text m; text_error := v;
     attached := attached m; loading_indicator := loading_indicator m;
     copy_icon := copy_icon m |}.

(** [copyIcon.classList.add("hide")] / [.remove("hide")] *)
Definition with_icon_hidden (v : bool) (m : Message) : Message :=
  {| classes := classes m; avatar := avatar m; text := text m; text_error := text_error m;
     attached := attached m; loading_indicator := loading_indicator m;
     copy_icon := match copy_icon m with Some _ => Some v | None => None end |}.

(** [textElement.innerText += piece] *)
Definition append_text (piece : string) (m : Message) : Message :=
  with_text (Appended (text m) piece) m.

Definition update (id : nat) (f : Message -> Message) (st : State) : State :=
  set_elements (alter f id (elements st)) st.

(** The state once the script has loaded: the variables as declared, the
    page as served (empty chat list, header shown), [initializeApp] run. *)
Definition init : State :=
  {| prompt := None; isResponseGenerating := false; chatHistory := [];
     attachedImageFile := None; elements := ∅; nextElement := 0; chatList := [];
     imagePreview := []; promptInput := ""; imageInput := []; hideHeader := false;
     objectUrls := 0; loadingTimers := 0; requests := []; intervals := ∅;
     nextInterval := 0; lookups := 0 |}.

(** The document beyond the records above: the page as served, and the
    elements the browser builds from the markup that prompts and replies
    bring in through [innerHTML].  Two operations of the script look at the
    whole document, [document.querySelector(".loading")] and
    [hljs.highlightAll(); addCopyIconToCodeBlocks()].  What the [n]-th of
    these operations, in the order the script runs them, meets there:
    - [loading_elsewhere n]: the first element of class [loading], in
      document order, is not one of the message divs of the chat list (it
      sits in the markup of an earlier message, or elsewhere on the page);
    - [decoration_error n]: the message of the error the decoration throws,
      [None] when it returns ([addCopyIconToCodeBlocks], for one, reads
      [codeElement.classList] of every [<pre>] without an icon, and throws
      at one that has no [<code>]). *)
Record Document := {
  loading_elsewhere : nat -> bool;
  decoration_error : nat -> option string
}.

Inductive Outcome :=
| Done (st : State)
| Threw (st : State) (message : string).

Section Script.

(** [marked.parse] on a string, and the message of the error it throws on
    any other value. *)
Variable marked_parse : string -> string.
Variable marked_type_error : JsVal -> string.

(** Whether the page puts [#image-input] inside [#prompt-form]. *)
Variable image_input_in_form : bool.

Variable document : Document.

Definition createObjectURL (file : File) (st : State) : ObjectUrl * State :=
  ({| url_id := objectUrls st; url_file := file |},
   set_objectUrls (S (objectUrls st)) st).

(** The three templates, as [innerHTML] parses them. *)
Definition outgoing_html (prompt : option string) (attachedHtml : option ObjectUrl) : Message :=
  {| classes := []; avatar := "images/user.svg"; text := Html (interpolate prompt);
     text_error := false; attached := attachedHtml; loading_indicator := false;
     copy_icon := None |}.

Definition loading_html : Message :=
  {| classes := []; avatar := "images/gemini.svg"; text := Html "";
     text_error := false; attached := None; loading_indicator := true;
     copy_icon := None |}.

Definition incoming_html : Message :=
  {| classes := []; avatar := "images/gemini.svg"; text := Html "";
     text_error := false; attached := None; loading_indicator := false;
     copy_icon := Some false |}.

Definition createMessageElement (html : Message) (extra : list string) : Message :=
  with_classes ("message" :: extra) html.

(** [chatList.appendChild(messageDiv)], for a newly created element. *)
Definition appendChild (messageDiv : Message) (st : State) : nat * State :=
  let id := nextElement st in
  (id, set_chatList (chatList st ++ [id])
         (set_nextElement (S id)
            (set_elements (<[id := messageDiv]> (elements st)) st))).

Definition showLoadingAnimation (st : State) : State :=
  snd (appendChild (createMessageElement loading_html ["incoming"; "loading"]) st).

Definition handleIncomingMessage (st : State) : nat * State :=
  appendChild (createMessageElement incoming_html ["incoming"]) st.

(** [document.querySelector(".loading")] followed by [.remove()].  Among the
    children of the chat list the loading messages carry that class; an
    element found elsewhere is removed from markup the records do not
    describe, and the loading message stays. *)
Definition is_loading (els : gmap nat Message) (id : nat) : bool :=
  match els !! id with
  | Some m => existsb (String.eqb "loading") (classes m)
  | None => false
  end.

Fixpoint remove_first_loading (els : gmap nat Message) (children : list nat) : list nat :=
  match children with
  | [] => []
  | id :: rest =>
      if is_loading els id then rest else id :: remove_first_loading els rest
  end.

Definition remove_loading (st : State) : State :=
  let elsewhere := loading_elsewhere document (lookups st) in
  let st := set_lookups (S (lookups st)) st in
  if elsewhere then st
  else set_chatList (remove_first_loading (elements st) (chatList st)) st.

(** [hljs.highlightAll(); addCopyIconToCodeBlocks();]: what they add lies
    inside the markup of the messages. *)
Definition decorate (st : State) : Outcome :=
  let error := decoration_error document (lookups st) in
  let st := set_lookups (S (lookups st)) st in
  match error with
  | None => Done st
  | Some message => Threw st message
  end.

(** [promptForm.reset()] *)
Definition reset_form (st : State) : State :=
  set_promptInput "" (if image_input_in_form then set_imageInput [] st else st).

Definition processPrompt (userPrompt : option string) (st : State) : State :=
  let fetchOptions :=
    match attachedImageFile st with
    | Some file => FormData (interpolate userPrompt) file
    | None => JsonData (JObj [("prompt", match userPrompt with
                                         | Some s => JStr s
                                         | None => JNull
                                         end)])
    end in
  set_requests (requests st ++ [{| userPrompt := userPrompt; sent := fetchOptions |}]) st.

Definition handleOutgoingMessage (st : State) : State :=
  if (negb (truthy_str (prompt st)) && negb (bool_decide (is_Some (attachedImageFile st))))
     || isResponseGenerating st
  then st
  else
    let st := set_isResponseGenerating true st in
    let '(attachedHtml, st) :=
      match attachedImageFile st with
      | Some file => let '(tmpUrl, st) := createObjectURL file st in (Some tmpUrl, st)
      | None => (None, st)
      end in
    let st := snd (appendChild
                     (createMessageElement (outgoing_html (prompt st) attachedHtml)
                                           ["outgoing"]) st) in
    let st := reset_form st in
    let st := set_hideHeader true st in
    let st := set_loadingTimers (S (loadingTimers st)) st in
    processPrompt (prompt st) st.

(** *** The typing effect *)

Definition showTypingEffect (response : string) (incomingMessageDiv : nat)
    (parsedText : string) (st : State) : State :=
  let st := update incomingMessageDiv (with_icon_hidden true) st in
  let interval := nextInterval st in
  set_nextInterval (S interval)
    (set_intervals (<[interval := {| words := Str.split response; currWordIndex := 0;
                                     incomingMessageDiv := incomingMessageDiv;
                                     parsedText := parsedText |}]> (intervals st)) st).

(** First statement of the interval callback:
    [textElement.innerText += (currWordIndex === 0 ? "" : " ") + words[currWordIndex++]] *)
Definition reveal_word (interval : nat) (st : State) : State :=
  match intervals st !! interval with
  | None => st
  | Some t =>
      let piece := (if (currWordIndex t =? 0)%nat then "" else " ")
                   +:+ Str.word_at (words t) (currWordIndex t) in
      let st := update (incomingMessageDiv t) (append_text piece) st in
      set_intervals (<[interval := {| words := words t;
                                      currWordIndex := S (currWordIndex t);
                                      incomingMessageDiv := incomingMessageDiv t;
                                      parsedText := parsedText t |}]> (intervals st)) st
  end.

(** Second statement: [if (currWordIndex === words.length) { ... }] *)
Definition finish_if_done (interval : nat) (st : State) : State :=
  match intervals st !! interval with
  | None => st
  | Some t =>
      if (currWordIndex t =? length (words t))%nat then
        let st := set_intervals (delete interval (intervals st)) st in
        let st := set_isResponseGenerating false st in
        let st := update (incomingMessageDiv t) (with_text (Html (parsedText t))) st in
        match decorate st with
        | Done st => update (incomingMessageDiv t) (with_icon_hidden false) st
        | Threw st _ => st              (* uncaught: the callback ends here *)
        end
      else st
  end.

(** One firing of the interval callback. *)
Definition tick (interval : nat) (st : State) : State :=
  finish_if_done interval (reveal_word interval st).

(** *** The promise chain of [processPrompt] *)

(** [.then((response) => ...)]: the value passed on, or the error thrown. *)
Definition first_then (settled : FetchResult) : string + JsVal :=
  match settled with
  | Rejected e => inl e
  | Resolved response =>
      if negb (ok response) then inl ("Server error: " +:+ status_text response)
      else match response_json response with
           | Json data => inr data
           | NotJson e => inl e
           end
  end.

(** [data?.candidates?.[0]?.content?.parts?.[0]?.text] *)
Definition reply_text (data : JsVal) : JsVal :=
  opt_prop (opt_first (opt_prop (opt_prop (opt_first (opt_prop data "candidates"))
                                          "content") "parts")) "text".

(** [.then((data) => ...)] *)
Definition second_then (userPrompt : option string) (data : JsVal) (st : State) : Outcome :=
  let st := remove_loading st in
  let rawApiResponse := reply_text data in
  if negb (truthy rawApiResponse) then Threw st "Invalid response from API"
  else
    match rawApiResponse with
    | JStr response =>
        let parsedApiResponse := marked_parse response in
        let '(incomingMessageDiv, st) := handleIncomingMessage st in
        let shown :=
          match attachedImageFile st with
          | Some _ =>
              let st := update incomingMessageDiv (with_text (Html parsedApiResponse)) st in
              match decorate st with
              | Done st => Done (set_isResponseGenerating false st)
              | thrown => thrown
              end
          | None => Done (showTypingEffect response incomingMessageDiv parsedApiResponse st)
          end in
        match shown with
        | Threw st e => Threw st e
        | Done st =>
            match attachedImageFile st with
            | Some file =>
                let '(localUrl, st) := createObjectURL file st in
                let st := set_chatHistory
                            (chatHistory st ++ [{| userMessage := userPrompt;
                                                   apiResponse := data;
                                                   imageUrl := Some localUrl |}]) st in
                let st := set_attachedImageFile None st in
                let st := set_imageInput [] st in
                Done (set_imagePreview [] st)
            | None =>
                Done (set_chatHistory
                        (chatHistory st ++ [{| userMessage := userPrompt;
                                               apiResponse := data;
                                               imageUrl := None |}]) st)
            end
        end
    | other => Threw st (marked_type_error other)
    end.

(** [.catch((error) => ...)] *)
Definition catch (message : string) (st : State) : State :=
  let st := set_isResponseGenerating false st in
  let st := remove_loading st in
  let '(incomingMessageDiv, st) := handleIncomingMessage st in
  let st := update incomingMessageDiv
              (with_text (Text ("An error occurred: " +:+ message))) st in
  update incomingMessageDiv (with_text_error true) st.

(** The promise of the [i]-th outstanding request settles. *)
Definition settle (i : nat) (settled : FetchResult) (st : State) : State :=
  match requests st !! i with
  | None => st
  | Some request =>
      let st := set_requests (delete i (requests st)) st in
      match first_then settled with
      | inl e => catch e st
      | inr data =>
          match second_then (userPrompt request) data st with
          | Done st => st
          | Threw st e => catch e st
          end
      end
  end.

(** *** The listeners *)

(** [promptForm] "submit" *)
Definition on_submit (st : State) : State :=
  handleOutgoingMessage (set_prompt (Some (Str.trim (promptInput st))) st).

(** A suggestion chip, whose text is [text], is clicked. *)
Definition on_suggestion (text : string) (st : State) : State :=
  handleOutgoingMessage (set_prompt (Some text) st).

(** [imageInput] "change", with [e.target.files] *)
Definition on_image_change (files : list File) (st : State) : State :=
  match files with
  | [] => st
  | file :: _ =>
      let st := set_attachedImageFile (Some file) st in
      let '(url, st) := createObjectURL file st in
      set_imagePreview [url] st
  end.

(** The remove button of the preview is clicked. *)
Definition on_remove_image (st : State) : State :=
  let st := set_attachedImageFile None st in
  let st := set_imageInput [] st in
  set_imagePreview [] st.

(** [deleteChatButton] "click", with the answer to [confirm]. *)
Definition on_delete_chat (confirmed : bool) (st : State) : State :=
  if confirmed then
    let st := set_chatHistory [] st in
    let st := set_chatList [] st in
    let st := set_hideHeader false st in
    let st := set_prompt None st in
    let st := set_isResponseGenerating false st in
    let st := set_attachedImageFile None st in
    let st := set_imageInput [] st in
    set_imagePreview [] st
  else st.

(** *** The client as a transition system *)

Inductive Event :=
| TypeText (value : string)               (* the user edits #prompt *)
| Submit
| Suggestion (text : string)
| PickImage (files : list File)           (* the file picker closes *)
| RemoveImage
| LoadingTimer                            (* a 500 ms timeout fires *)
| Settle (i : nat) (settled : FetchResult)
| Tick (interval : nat)                   (* a 20 ms interval fires *)
| DeleteChat (confirmed : bool).

Definition step (ev : Event) (st : State) : State :=
  match ev with
  | TypeText value => set_promptInput value st
  | Submit => on_submit st
  | Suggestion text => on_suggestion text st
  | PickImage files => on_image_change files (set_imageInput files st)
  | RemoveImage =>
      match imagePreview st with
      | [] => st                          (* no remove button on the page *)
      | _ => on_remove_image st
      end
  | LoadingTimer =>
      match loadingTimers st with
      | 0 => st
      | S n => showLoadingAnimation (set_loadingTimers n st)
      end
  | Settle i settled => settle i settled st
  | Tick interval => tick interval st
  | DeleteChat confirmed => on_delete_chat confirmed st
  end.

Definition run (evs : list Event) (st : State) : State :=
  foldl (fun st ev => step ev st) st evs.

Inductive reachable : State -> Prop :=
| reachable_init : reachable init
| reachable_step ev st : reachable st -> reachable (step ev st).

End Script.

(** *** Vocabulary for the properties below *)

(** The attachments the page shows as pending. *)
Definition pending_attachments (st : State) : list File :=
  map url_file (imagePreview st).

(** The pieces the typing effect appends for [words]: the first word as it
    is, every later one after a space. *)
Definition tokens (words : list string) : list string :=
  imap (fun i word => (if (i =? 0)%nat then "" else " ") +:+ word) words.

(** The preview shows exactly the file held in [attachedImageFile]. *)
Definition preview_matches (st : State) : Prop :=
  pending_attachments st = option_list (attachedImageFile st).

(** The interval [interval] is running [showTypingEffect] on the element
    [div] and has appended the first [k] words so far. *)
Definition revealing (interval div : nat) (ws : list string) (parsed : string)
    (k : nat) (st : State) : Prop :=
  intervals st !! interval =
    Some {| words := ws; currWordIndex := k; incomingMessageDiv := div;
            parsedText := parsed |} /\
  exists m, elements st !! div = Some m /\ pieces (text m) = tokens (take k ws).

(** Case analysis on what the whole-document operations meet. *)
Ltac look :=
  repeat (progress
            (try unfold catch; try unfold remove_loading; try unfold decorate; cbv zeta;
             repeat match goal with
                    | |- context [decoration_error ?d ?n] =>
                        destruct (decoration_error d n) eqn:?
                    | |- context [loading_elsewhere ?d ?n] =>
                        destruct (loading_elsewhere d n) eqn:?
                    end;
             simpl)).

(** Case analysis on whatever a handler branches on. *)
Ltac branch :=
  repeat match goal with
         | |- context [decoration_error ?d ?n] => destruct (decoration_error d n) eqn:?; simpl
         | |- context [loading_elsewhere ?d ?n] => destruct (loading_elsewhere d n) eqn:?; simpl
         | |- context [match ?x with _ => _ end] => destruct x eqn:?; simpl
         | |- context [if ?b then _ else _] => destruct b eqn:?; simpl
         end.

End ChatClient.

(** ** Sample inputs *)

Module Samples.
Import Relay.

Definition env_with_key : Env := {| API_KEY := Some "k" |}.
Definition env_without_key : Env := {| API_KEY := None |}.

(** The upstream of the end-to-end example. *)
Definition hi_there : JsVal :=
  JObj [("candidates", JArr [
    JObj [("content", JObj [("parts", JArr [ JObj [("text", JStr "Hi there")] ])])] ])].

Definition upstream_ok : Upstream :=
  fun _ => Resolved {| response_status := 200; response_json := Json hi_there |}.

Definition quota_error : JsVal :=
  JObj [("error", JObj [("code", JNum 429); ("message", JStr "quota exceeded")])].

Definition upstream_429 : Upstream :=
  fun _ => Resolved {| response_status := 429; response_json := Json quota_error |}.

Definition post (b : JsVal) (f : option UploadedFile) : Request :=
  {| method := "POST"; origin := Some allowed_origin; body := b; file := f |}.

Definition picture : UploadedFile :=
  {| originalname := "cat.png"; mimetype := None;
     buffer := Base64.bytes_of_string "foo" |}.

Definition hello : Request := post (JObj [("prompt", JStr "Hello")]) None.
Definition empty_prompt : Request := post (JObj [("prompt", JStr "")]) None.
Definition picture_with_empty_prompt : Request :=
  post (JObj [("prompt", JStr "")]) (Some picture).
Definition picture_with_prompt : Request :=
  post (JObj [("prompt", JStr "Who is this?")]) (Some picture).

Definition foreign_get : Request :=
  {| method := "GET"; origin := Some "http://evil.example"; body := JUndefined;
     file := None |}.
Definition preflight : Request :=
  {| method := "OPTIONS"; origin := Some "http://evil.example"; body := JUndefined;
     file := None |}.

(** The client side: a stand-in for [marked], two files, and the reply of
    the end-to-end example as [fetch] delivers it. *)
Definition marked_stub (s : string) : string := "<p>" +:+ s +:+ "</p>".
Definition marked_error_stub (v : JsVal) : string :=
  "marked(): input parameter is not a string".

(** A page on which the whole-document operations meet nothing but what the
    script built: no other element of class [loading], and every [<pre>]
    with its [<code>]. *)
Definition plain_page : ChatClient.Document :=
  {| ChatClient.loading_elsewhere := fun _ => false;
     ChatClient.decoration_error := fun _ => None |}.

Definition cat_png : ChatClient.File :=
  {| ChatClient.file_name := "cat.png"; ChatClient.file_type := "image/png" |}.
Definition dog_png : ChatClient.File :=
  {| ChatClient.file_name := "dog.png"; ChatClient.file_type := "image/png" |}.

Definition hi_there_200 : Response :=
  {| response_status := 200; response_json := Json hi_there |}.
Definition hi_there_response : FetchResult := Resolved hi_there_200.

(** The client after "Hello" has been typed and submitted. *)
Definition hello_sent : ChatClient.State :=
  ChatClient.run marked_stub marked_error_stub true plain_page [ChatClient.TypeText "Hello"; ChatClient.Submit] ChatClient.init.

(** The client after one image, then another, has been picked. *)
Definition two_picks : ChatClient.State :=
  ChatClient.run marked_stub marked_error_stub true plain_page [ChatClient.PickImage [cat_png]; ChatClient.PickImage [dog_png]]
    ChatClient.init.

End Samples.

(** ** Further vocabulary: decoding base64, and the relay's other replies *)

Module Base64Decode.
Import Base64.

(** Position of a character in the alphabet, counting from [i]. *)
Fixpoint index_from (i : N) (c : ascii) (s : string) : option N :=
  match s with
  | EmptyString => None
  | String c' rest => if Ascii.eqb c c' then Some i else index_from (i + 1) c rest
  end.

(** The 6-bit value a base64 character stands for. *)
Definition value (c : ascii) : option N := index_from 0 c alphabet.

(** RFC 4648 decoding of padded base64: four characters give three bytes,
    and a final group padded with one or two "=" gives two or one. *)
Fixpoint decode (s : string) : option (list Byte.byte) :=
  match s with
  | EmptyString => Some []
  | String c0 (String c1 (String c2 (String c3 rest))) =>
      d0 ← value c0;
      d1 ← value c1;
      b0 ← Byte.of_N (d0 * 4 + d1 / 16);
      if Ascii.eqb c2 "=" then
        if Ascii.eqb c3 "=" && String.eqb rest "" then Some [b0] else None
      else
        d2 ← value c2;
        b1 ← Byte.of_N ((d1 mod 16) * 16 + d2 / 4);
        if Ascii.eqb c3 "=" then
          if String.eqb rest "" then Some [b0; b1] else None
        else
          d3 ← value c3;
          b2 ← Byte.of_N ((d2 mod 4) * 64 + d3);
          more ← decode rest;
          Some (b0 :: b1 :: b2 :: more)
  | _ => None
  end.

End Base64Decode.

Module RelayApp.
Import Relay.

(** The registered path that the URL of a request matches under Express's
    path matching, if any. *)
Inductive Path :=
| RootPath          (* "/" *)
| ConfigPath        (* "/api/config" *)
| GeminiPath        (* "/api/gemini" *)
| OtherPath.

(** The route Express selects, by method and path; a HEAD request is served
    by the GET route of its path. *)
Definition route_of (m : string) (p : Path) : Route :=
  match p with
  | RootPath => if String.eqb m "GET" || String.eqb m "HEAD" then GetRoot else NoRoute
  | ConfigPath => if String.eqb m "GET" || String.eqb m "HEAD" then GetConfig else NoRoute
  | GeminiPath => if String.eqb m "POST" then PostGemini else NoRoute
  | OtherPath => NoRoute
  end.

(** A request as the two body parsers of the application take it.
    [express.json()], which [app.use] registers first, passes a body
    declared as JSON that it cannot read (malformed, too large, ...) on to
    Express's error handler, with an HTTP status: the CORS middleware and
    the routes never see that request, whatever its method.
    [upload.single('image')], in front of the handler of POST /api/gemini,
    does the same with a multipart body it refuses (malformed, or a file
    under another field name), after the CORS middleware has run.  Any
    other request reaches the handlers as a [Request]. *)
Inductive Arrival :=
| BodyRefused (m : string) (o : option string) (p : Path) (code : Z)
| UploadRefused (o : option string) (message : string)
| BodyRead (req : Request) (p : Path).

(** Has [express.json()] let the request through? *)
Definition parsed (a : Arrival) : bool :=
  match a with
  | BodyRefused _ _ _ _ => false
  | _ => true
  end.

(** The whole application.  [headers] are the ones the relay's code has set
    on the response, [reply] the reply it has sent, if any. *)
Definition app (env : Env) (up : Upstream) (a : Arrival) : Served :=
  match a with
  | BodyRefused _ _ _ _ => {| headers := []; reply := None; outbound := [] |}
  | UploadRefused _ _ => {| headers := cors_headers; reply := None; outbound := [] |}
  | BodyRead req p => serve env up (route_of (method req) p) req
  end.

End RelayApp.

Module RelayReplies.
Import Relay.

(** The reply of the [catch] block. *)
Definition internal_error (message : string) : Reply :=
  {| status := 500;
     payload := JsonBody (JObj [("error", JStr "Internal server error");
                                ("message", JStr message)]) |}.

(** The reply of [GET /api/config]. *)
Definition config_reply (env : Env) : Reply :=
  {| status := 200;
     payload := JsonBody (JObj [("API_KEY", match API_KEY env with
                                            | Some k => JStr k
                                            | None => JUndefined
                                            end)]) |}.

(** What the upstream call of a request came to, when it came to nothing
    the handler can relay: [fetch] rejected, or the body was not JSON. *)
Definition upstream_exception (up : Upstream) (call : FetchCall) : option string :=
  match up call with
  | Rejected e => Some e
  | Resolved r =>
      match response_json r with
      | NotJson e => Some e
      | Json _ => None
      end
  end.

End RelayReplies.

(** ** Further vocabulary for the chat client *)

Module ClientVocabulary.
Import ChatClient.

Section Outcomes.

Variable marked_parse : string -> string.
Variable marked_type_error : JsVal -> string.
Variable document : Document.

(** The error that sends the promise chain of [processPrompt] to [.catch]
    before any reply is shown, if there is one: its message. *)
Definition failure_of (settled : FetchResult) : option string :=
  match first_then settled with
  | inl e => Some e
  | inr data =>
      if negb (truthy (reply_text data)) then Some "Invalid response from API"
      else match reply_text data with
           | JStr _ => None
           | other => Some (marked_type_error other)
           end
  end.

(** *** [displayChatHistory]

    The script defines it and never calls it.  One round of its [forEach]:
    [marked.parse] runs first and may throw; then the outgoing and the
    incoming message are appended, and the page is decorated, which may
    throw as well. *)
Definition display_exchange (chat : Exchange) (st : State) : Outcome :=
  match js_or (reply_text (apiResponse chat)) (JStr "Error generating response") with
  | JStr rawApiResponse =>
      let parsedApiResponse := marked_parse rawApiResponse in
      let st := snd (appendChild
                       (createMessageElement
                          (outgoing_html (userMessage chat) (imageUrl chat))
                          ["outgoing"]) st) in
      let '(incomingMessageDiv, st) :=
        appendChild (createMessageElement incoming_html ["incoming"]) st in
      decorate document (update incomingMessageDiv (with_text (Html parsedApiResponse)) st)
  | other => Threw st (marked_type_error other)
  end.

Fixpoint display_all (chats : list Exchange) (st : State) : Outcome :=
  match chats with
  | [] => Done st
  | chat :: rest =>
      match display_exchange chat st with
      | Done st => display_all rest st
      | thrown => thrown
      end
  end.

Definition displayChatHistory (st : State) : Outcome :=
  match display_all (chatHistory st) (set_chatList [] st) with
  | Done st => Done (set_hideHeader (0 <? length (chatHistory st))%nat st)
  | thrown => thrown
  end.

End Outcomes.

(** The bubble [.catch] puts on the page. *)
Definition error_bubble (message : string) : Message :=
  with_text_error true
    (with_text (Text ("An error occurred: " +:+ message))
       (createMessageElement incoming_html ["incoming"])).

(** A stored exchange as the promise chain stores it: the prompt the user
    sent, and a payload whose reply text is a non-empty string. *)
Definition well_stored (chat : Exchange) : Prop :=
  is_Some (userMessage chat) /\
  exists T, T <> "" /\ reply_text (apiResponse chat) = JStr T.

(** Outstanding requests carry the prompt the listener read. *)
Definition well_sent (request : Pending) : Prop := is_Some (userPrompt request).

Definition history_ok (st : State) : Prop :=
  Forall well_stored (chatHistory st) /\ Forall well_sent (requests st).

(** The confirmed "delete chat" click. *)
Definition is_clear (ev : Event) : bool :=
  match ev with
  | DeleteChat true => true
  | _ => false
  end.

(** At most one piece of work at a time: nothing, or one request awaiting
    its reply, or one typing effect that has words left to reveal; and the
    flag is set exactly while there is one. *)
Definition one_at_a_time (st : State) : Prop :=
  (isResponseGenerating st = false /\ requests st = [] /\ intervals st = ∅) \/
  (isResponseGenerating st = true /\ (exists request, requests st = [request]) /\
   intervals st = ∅) \/
  (isResponseGenerating st = true /\ requests st = [] /\
   exists interval t, intervals st = {[interval := t]} /\
                      currWordIndex t < length (words t)).

(** Timer and element identities in use are below the next ones to be
    handed out. *)
Definition identities_ok (st : State) : Prop :=
  forall interval t, intervals st !! interval = Some t ->
    interval < nextInterval st /\ incomingMessageDiv t < nextElement st.

(** No other running interval writes to the element [div]. *)
Definition apart (interval div : nat) (st : State) : Prop :=
  interval < nextInterval st /\ div < nextElement st /\
  forall other t, other <> interval -> intervals st !! other = Some t ->
    incomingMessageDiv t <> div.

(** What a handler other than the interval callback may do to the message
    elements and the intervals: create elements, under the next identities,
    and start intervals on new elements.  The elements and intervals there
    were are left as they are. *)
Definition grows (st st' : State) : Prop :=
  nextElement st <= nextElement st' /\
  nextInterval st <= nextInterval st' /\
  (forall id, id < nextElement st -> elements st' !! id = elements st !! id) /\
  (forall interval t, intervals st' !! interval = Some t ->
     intervals st !! interval = Some t \/
     (nextInterval st <= interval < nextInterval st' /\
      nextElement st <= incomingMessageDiv t < nextElement st')) /\
  (forall interval, interval < nextInterval st ->
     intervals st' !! interval = intervals st !! interval).

Ltac grown :=
  unfold grows; simpl;
  split; [lia |]; split; [lia |];
  split;
    [intros ? ?;
     repeat first [rewrite lookup_alter_ne by lia | rewrite lookup_insert_ne by lia];
     reflexivity |];
  split;
    [ let Hl := fresh "Hl" in
      intros ? ? Hl;
      first [ left; exact Hl
            | apply lookup_insert_Some in Hl as [[<- <-] | [_ Hl]];
              [right; simpl; lia | left; exact Hl] ]
    | intros ? ?; rewrite ?lookup_insert_ne by lia; reflexivity ].

(** The typing effect of [interval] has finished on [div]. *)
Definition typed (interval div : nat) (parsed : string) (st : State) : Prop :=
  intervals st !! interval = None /\
  exists m, elements st !! div = Some m /\ text m = Html parsed.

Definition is_tick (interval : nat) (ev : Event) : bool :=
  match ev with
  | Tick i => (i =? interval)%nat
  | _ => false
  end.

(** How often the interval has fired in a sequence of events. *)
Definition count_ticks (interval : nat) (evs : list Event) : nat :=
  length (filter (fun ev => is_tick interval ev = true) evs).

(** Is the element a loading indicator? *)
Definition not_loading (els : gmap nat Message) (id : nat) : Prop :=
  is_loading els id = false.

End ClientVocabulary.

(** ** From the browser to the relay *)

Module Wire.
Import ChatClient.

Section Wire.

(** How the browser and multer turn the picked [File] into [req.file], and
    the origin of the page. *)
Variable upload : File -> Relay.UploadedFile.
Variable page_origin : option string.

(** The request the relay's handler sees for what [processPrompt] sends:
    [express.json()] parses the JSON text back into the object that was
    stringified; multer puts the text field into [req.body] and the image
    into [req.file]. *)
Definition delivered (sent : RequestBody) : Relay.Request :=
  match sent with
  | JsonData v =>
      {| Relay.method := "POST"; Relay.origin := page_origin;
         Relay.body := v; Relay.file := None |}
  | FormData promptField image =>
      {| Relay.method := "POST"; Relay.origin := page_origin;
         Relay.body := JObj [("prompt", JStr promptField)];
         Relay.file := Some (upload image) |}
  end.

End Wire.

End Wire.

(** ** Further sample inputs *)

Module MoreSamples.
Import Samples.

(** An upstream that cannot be reached. *)
Definition upstream_down : Relay.Upstream := fun _ => Rejected "fetch failed".

(** An upstream (or a proxy in front of it) that answers 503 with an HTML
    page, at which [response.json()] rejects. *)
Definition service_unavailable : Response :=
  {| response_status := 503;
     response_json := NotJson "Unexpected token '<' is not valid JSON" |}.

Definition upstream_503_html : Relay.Upstream := fun _ => Resolved service_unavailable.

(** A pre-flight request declaring a JSON body that cannot be parsed. *)
Definition broken_preflight : RelayApp.Arrival :=
  RelayApp.BodyRefused "OPTIONS" (Some Relay.allowed_origin) RelayApp.GeminiPath 400.

(** A page on which some message holds a [<pre>] without a [<code>]: the
    decoration throws whenever it runs. *)
Definition null_class_list : string :=
  "Cannot read properties of null (reading 'classList')".

Definition bare_pre_page : ChatClient.Document :=
  {| ChatClient.loading_elsewhere := fun _ => false;
     ChatClient.decoration_error := fun _ => Some null_class_list |}.

(** A page on which an earlier message holds an element of class [loading]
    in its markup. *)
Definition stray_loading_page : ChatClient.Document :=
  {| ChatClient.loading_elsewhere := fun _ => true;
     ChatClient.decoration_error := fun _ => None |}.

(** A send, the loading indicator, and the reply. *)
Definition hello_answered : list ChatClient.Event :=
  [ChatClient.TypeText "Hello"; ChatClient.Submit; ChatClient.LoadingTimer;
   ChatClient.Settle 0 hi_there_response].

Definition client_run : list ChatClient.Event -> ChatClient.State -> ChatClient.State :=
  ChatClient.run marked_stub marked_error_stub true plain_page.

(** " Hello " typed into the field of a freshly loaded page. *)
Definition hello_typed : ChatClient.State :=
  client_run [ChatClient.TypeText " Hello "] ChatClient.init.

(** Only spaces typed. *)
Definition blank_typed : ChatClient.State :=
  client_run [ChatClient.TypeText "   "] ChatClient.init.

(** An image picked and submitted without text. *)
Definition picture_sent : ChatClient.State :=
  client_run [ChatClient.PickImage [cat_png]; ChatClient.Submit] ChatClient.init.

Definition picture_request : ChatClient.Pending :=
  {| ChatClient.userPrompt := Some ""; ChatClient.sent := ChatClient.FormData "" cat_png |}.

Definition hello_request : ChatClient.Pending :=
  {| ChatClient.userPrompt := Some "Hello";
     ChatClient.sent := ChatClient.JsonData (JObj [("prompt", JStr "Hello")]) |}.

(** A send, its reply, the two firings of the typing effect, and another
    send. *)
Definition busy_session : list ChatClient.Event :=
  [ChatClient.TypeText "Hello"; ChatClient.Submit; ChatClient.LoadingTimer;
   ChatClient.Settle 0 hi_there_response; ChatClient.Tick 0; ChatClient.Tick 0;
   ChatClient.TypeText "again"; ChatClient.Submit].

(** What happens around the two firings that type "Hi there". *)
Definition around_the_reveal : list ChatClient.Event :=
  [ChatClient.Tick 0; ChatClient.TypeText "next"; ChatClient.LoadingTimer;
   ChatClient.DeleteChat true; ChatClient.Submit; ChatClient.Tick 0].

(** How a picked file reaches the relay. *)
Definition upload_stub (file : ChatClient.File) : Relay.UploadedFile :=
  {| Relay.originalname := ChatClient.file_name file;
     Relay.mimetype := Some (ChatClient.file_type file);
     Relay.buffer := Base64.bytes_of_string "foo" |}.

End MoreSamples.

(** * Properties *)

(** ** Base64 and string helpers on known vectors *)

Example base64_f : Base64.encode (Base64.bytes_of_string "f") = "Zg==".
Proof. reflexivity. Qed.

Example base64_fo : Base64.encode (Base64.bytes_of_string "fo") = "Zm8=".
Proof. reflexivity. Qed.

Example base64_foobar : Base64.encode (Base64.bytes_of_string "foobar") = "Zm9vYmFy".
Proof. reflexivity. Qed.

Example split_double_space : Str.split "a  b c" = ["a"; ""; "b"; "c"].
Proof. reflexivity. Qed.

Example trim_both_ends : Str.trim "  a b  " = "a b".
Proof. reflexivity. Qed.

(** ** The relay *)

Section RelayProperties.
Import Relay.

Variable env : Env.
Variable up : Upstream.

Lemma absent_or_empty_is_falsy (p : JsVal) :
  p = JUndefined \/ p = JNull \/ p = JStr "" -> truthy p = false.
Proof. intros [-> | [-> | ->]]; reflexivity. Qed.

Lemma prompt_of_no_body (req : Request) :
  body req = JUndefined -> prompt_of req = JUndefined.
Proof. unfold prompt_of. intros ->. reflexivity. Qed.

Lemma prompt_of_field (req : Request) (s : string) :
  get_prop (body req) "prompt" = JStr s -> prompt_of req = JStr s.
Proof.
  unfold prompt_of. destruct (body req); simpl; try discriminate.
  intros ->. reflexivity.
Qed.

Lemma nonempty_is_truthy (s : string) : s <> "" -> truthy (JStr s) = true.
Proof.
  intros Hs. simpl. destruct (String.eqb_spec s ""); [contradiction | reflexivity].
Qed.

(** A POST passes the CORS middleware and reaches the handler. *)
Lemma generate_post (req : Request) :
  method req = "POST" ->
  generate env up req = run cors_headers (gemini env req) up.
Proof. unfold generate, serve, cors. intros ->. reflexivity. Qed.

(** The handler, branch by branch. *)
Lemma gemini_invalid (req : Request) :
  valid_input req = false ->
  gemini env req up [] = (Sent missing_input, []).
Proof.
  unfold valid_input, gemini, try_catch. intros H.
  apply orb_false_iff in H as [Hf Hp].
  destruct (file req) as [f|]; [discriminate Hf |].
  rewrite Hp. reflexivity.
Qed.

Lemma gemini_not_configured (req : Request) :
  valid_input req = true -> truthy_str (API_KEY env) = false ->
  gemini env req up [] = (Sent not_configured, []).
Proof.
  unfold valid_input, gemini, try_catch. intros H Hk.
  destruct (file req) as [f|]; rewrite Hk; simpl in *; [reflexivity |].
  rewrite H. reflexivity.
Qed.

(** With valid input and a key, the handler calls the upstream exactly once
    and then relays what came back. *)
Lemma gemini_forwards (req : Request) (key : string) :
  valid_input req = true -> API_KEY env = Some key -> key <> "" ->
  gemini env req up [] =
    let call := upstream_call key (request_body req) in
    match up call with
    | Rejected e =>
        (Sent {| status := 500;
                 payload := JsonBody (JObj [("error", JStr "Internal server error");
                                            ("message", JStr e)]) |}, [call])
    | Resolved r =>
        match response_json r with
        | NotJson e =>
            (Sent {| status := 500;
                     payload := JsonBody (JObj [("error", JStr "Internal server error");
                                                ("message", JStr e)]) |}, [call])
        | Json v =>
            if ok r then (Sent {| status := 200; payload := JsonBody v |}, [call])
            else (Sent {| status := response_status r;
                          payload := JsonBody (JObj [("error", JStr "Gemini API request failed");
                                                     ("details", v)]) |}, [call])
        end
    end.
Proof.
  intros H Hk Hne.
  assert (Hts : truthy_str (API_KEY env) = true).
  { rewrite Hk. simpl. destruct (String.eqb_spec key ""); [contradiction | reflexivity]. }
  unfold valid_input in H. unfold gemini, request_body, try_catch.
  destruct (file req) as [f|]; rewrite Hts; simpl in H |- *.
  - rewrite Hk. simpl. unfold mbind, handler_bind, bind, fetch_post, upstream_call. simpl.
    destruct (up _) as [r | e]; [| reflexivity].
    unfold relay_response, mbind, handler_bind, bind, json, send_json.
    destruct (ok r); simpl; destruct (response_json r); reflexivity.
  - rewrite H. simpl. rewrite Hk. simpl.
    unfold mbind, handler_bind, bind, fetch_post, upstream_call. simpl.
    destruct (up _) as [r | e]; [| reflexivity].
    unfold relay_response, mbind, handler_bind, bind, json, send_json.
    destruct (ok r); simpl; destruct (response_json r); reflexivity.
Qed.

Lemma key_set (k : option string) :
  truthy_str k = true -> exists key, k = Some key /\ key <> "".
Proof.
  destruct k as [key|]; simpl; [| discriminate].
  intros H. exists key. split; [reflexivity |].
  intros ->. discriminate H.
Qed.

End RelayProperties.

(** ** The claims about the relay *)

Section RelayClaims.
Import Relay.

Variable env : Env.
Variable up : Upstream.

(** What a Generate call with valid input and a configured key does: one
    upstream call, carrying the body of its branch. *)
Lemma generate_outbound (req : Request) (key : string) :
  method req = "POST" -> valid_input req = true ->
  API_KEY env = Some key -> key <> "" ->
  outbound (generate env up req) = [upstream_call key (request_body req)].
Proof.
  intros Hm Hv Hk Hne. rewrite generate_post by exact Hm.
  unfold run. rewrite (gemini_forwards env up req key Hv Hk Hne). simpl.
  destruct (up _) as [r | e]; [| reflexivity].
  destruct (response_json r); [destruct (ok r) |]; reflexivity.
Qed.

(** C1: a Generate call with no image whose prompt is absent or empty (any
    falsy prompt: undefined, null, the empty string) is answered with the
    400 "missing input" error, and no request goes to the upstream API. *)
Theorem C1_missing_input (req : Request) :
  method req = "POST" -> file req = None -> truthy (prompt_of req) = false ->
  reply (generate env up req) = Some missing_input /\
  status missing_input = 400%Z /\
  outbound (generate env up req) = [].
Proof.
  intros Hm Hf Hp. rewrite generate_post by exact Hm.
  unfold run. rewrite gemini_invalid; [repeat split |].
  unfold valid_input. rewrite Hf, Hp. reflexivity.
Qed.

(** C2: a Generate call that passes input validation (an image, or a
    non-empty prompt) while the credential is unset (or empty) is answered
    with the 500 configuration error, and no outbound call is made. *)
Theorem C2_credential_unset (req : Request) :
  method req = "POST" -> valid_input req = true ->
  truthy_str (API_KEY env) = false ->
  reply (generate env up req) = Some not_configured /\
  status not_configured = 500%Z /\
  outbound (generate env up req) = [].
Proof.
  intros Hm Hv Hk. rewrite generate_post by exact Hm.
  unfold run. rewrite gemini_not_configured by assumption. repeat split.
Qed.

(** C3 (amended): with an image and the credential set, the upstream body
    has exactly one content with exactly two parts: the inline-data part
    with the MIME type (image/jpeg when undetected) and the base64 of the
    image bytes, then the text part, which is the supplied prompt when that
    is non-empty and the default description prompt when the prompt is
    absent or empty. *)
Theorem C3_multimodal_body (req : Request) (f : UploadedFile) (key : string) :
  method req = "POST" -> file req = Some f ->
  API_KEY env = Some key -> key <> "" ->
  outbound (generate env up req) =
    [upstream_call key
       (JObj [("contents", JArr [
          JObj [("parts", JArr [
            JObj [("inline_data",
                   JObj [("mime_type", JStr (match mimetype f with
                                             | Some "" | None => "image/jpeg"
                                             | Some detected => detected
                                             end));
                         ("data", JStr (Base64.encode (buffer f)))])];
            JObj [("text", if truthy (prompt_of req) then prompt_of req
                           else JStr default_prompt)]
          ])]
       ])])].
Proof.
  intros Hm Hf Hk Hne.
  rewrite (generate_outbound req key Hm) by (try assumption; unfold valid_input; rewrite Hf; reflexivity).
  unfold request_body. rewrite Hf. unfold multimodalRequest, js_or, str_or.
  destruct (mimetype f) as [[|c m]|]; reflexivity.
Qed.

(** C4: without an image, with a non-empty prompt string and the credential
    set, the upstream body has exactly one content with exactly one part,
    a text part holding the supplied prompt. *)
Theorem C4_text_only_body (req : Request) (s key : string) :
  method req = "POST" -> file req = None ->
  prompt_of req = JStr s -> s <> "" ->
  API_KEY env = Some key -> key <> "" ->
  outbound (generate env up req) =
    [upstream_call key
       (JObj [("contents", JArr [ JObj [("parts", JArr [ JObj [("text", JStr s)] ])] ])])].
Proof.
  intros Hm Hf Hp Hs Hk Hne.
  rewrite (generate_outbound req key Hm); try assumption.
  - unfold request_body. rewrite Hf, Hp. reflexivity.
  - unfold valid_input. rewrite Hp, (nonempty_is_truthy s Hs). apply orb_true_r.
Qed.

(** C5 (amended): when the upstream call of a Generate call comes back with
    status S outside 200-299 and a JSON body B, the relay answers with
    status S and the envelope {error, details: B}; when it comes back with
    a success status and a JSON body B, the relay answers with B itself. *)
Theorem C5_upstream_passthrough (req : Request) (call : FetchCall)
    (code : Z) (B : JsVal) :
  method req = "POST" ->
  outbound (generate env up req) = [call] ->
  up call = Resolved {| response_status := code; response_json := Json B |} ->
  reply (generate env up req) =
    Some (if (200 <=? code)%Z && (code <=? 299)%Z
          then {| status := 200; payload := JsonBody B |}
          else {| status := code;
                  payload := JsonBody (JObj [("error", JStr "Gemini API request failed");
                                             ("details", B)]) |}).
Proof.
  intros Hm Hout Hup. rewrite generate_post in Hout |- * by exact Hm.
  destruct (valid_input req) eqn:Hv.
  2:{ unfold run in Hout. rewrite gemini_invalid in Hout by exact Hv. discriminate Hout. }
  destruct (truthy_str (API_KEY env)) eqn:Hk.
  2:{ unfold run in Hout. rewrite gemini_not_configured in Hout by assumption.
      discriminate Hout. }
  destruct (key_set _ Hk) as (key & Hkey & Hne).
  unfold run in Hout |- *.
  rewrite (gemini_forwards env up req key Hv Hkey Hne) in Hout |- *.
  cbv zeta in Hout |- *.
  assert (Hcall : call = upstream_call key (request_body req)).
  { destruct (up (upstream_call key (request_body req))) as [r | e]; simpl in Hout.
    - destruct (response_json r); [destruct (ok r) |]; simpl in Hout; congruence.
    - congruence. }
  rewrite <- Hcall, Hup. unfold ok. simpl.
  destruct ((200 <=? code)%Z && (code <=? 299)%Z); reflexivity.
Qed.

(** C6 (amended): for every request that [express.json()] lets through,
    the middleware stamps the response with the single allowed origin and
    never looks at the request's own origin: requests that are not OPTIONS
    are passed on to the routes whatever their origin, and the answer does
    not depend on the origin; every such OPTIONS request is answered with
    status 200 and the status text "OK" as body, without reaching a route
    or the upstream.  A request whose body [express.json()] refuses never
    reaches the middleware: it gets no Access-Control header and no answer
    from the relay's own code, pre-flight included. *)
Theorem C6_cors_policy :
  (forall a, RelayApp.parsed a = true ->
     In ("Access-Control-Allow-Origin", allowed_origin) (headers (RelayApp.app env up a))) /\
  (forall o req path,
     RelayApp.app env up (RelayApp.BodyRead (from_origin o req) path) =
     RelayApp.app env up (RelayApp.BodyRead req path)) /\
  (forall req, method req <> "OPTIONS" -> snd (cors req) = Next) /\
  (forall req path, method req = "OPTIONS" ->
     reply (RelayApp.app env up (RelayApp.BodyRead req path)) =
       Some {| status := 200; payload := TextBody "OK" |} /\
     outbound (RelayApp.app env up (RelayApp.BodyRead req path)) = []) /\
  (forall a, RelayApp.parsed a = false ->
     headers (RelayApp.app env up a) = [] /\
     reply (RelayApp.app env up a) = None /\
     outbound (RelayApp.app env up a) = []).
Proof.
  split; [| split; [| split; [| split]]].
  - intros [m o p code | o message | req path] Hp; [discriminate Hp | left; reflexivity |].
    unfold RelayApp.app, serve, cors. destruct (String.eqb (method req) "OPTIONS").
    + left. reflexivity.
    + destruct (RelayApp.route_of (method req) path); unfold run;
        [destruct (root up []) as [[]] | destruct (config env up []) as [[]]
        | destruct (gemini env req up []) as [[]] | ]; left; reflexivity.
  - intros o req path. reflexivity.
  - intros req Hm. unfold cors. simpl.
    destruct (String.eqb_spec (method req) "OPTIONS"); [contradiction | reflexivity].
  - intros req path Hm. unfold RelayApp.app, serve, cors. rewrite Hm. split; reflexivity.
  - intros [m o p code | o message | req path] Hp; try discriminate Hp. repeat split.
Qed.

(** C10: a multipart Generate call with an image and a prompt field equal
    to the empty string forwards the default description prompt as its
    text part, not the empty string. *)
Theorem C10_empty_prompt_defaults (req : Request) (f : UploadedFile) (key : string) :
  method req = "POST" -> file req = Some f ->
  get_prop (body req) "prompt" = JStr "" ->
  API_KEY env = Some key -> key <> "" ->
  exists call,
    outbound (generate env up req) = [call] /\
    text_of_parts (fetch_body call) =
      [JStr "What is in this image? Describe it in detail."].
Proof.
  intros Hm Hf Hp Hk Hne.
  exists (upstream_call key (request_body req)). split.
  - apply generate_outbound; try assumption.
    unfold valid_input. rewrite Hf. reflexivity.
  - unfold request_body. rewrite Hf, (prompt_of_field req "" Hp). reflexivity.
Qed.

End RelayClaims.

(** ** The relay claims on sample requests *)

Section RelaySamples.
Import Relay Samples.

Lemma C1_missing_input_witness :
  method empty_prompt = "POST" /\ file empty_prompt = None /\
  truthy (prompt_of empty_prompt) = false /\
  (reply (generate env_with_key upstream_ok empty_prompt) = Some missing_input /\
   status missing_input = 400%Z /\
   outbound (generate env_with_key upstream_ok empty_prompt) = []).
Proof.
  exact (conj eq_refl (conj eq_refl (conj eq_refl
           (C1_missing_input env_with_key upstream_ok empty_prompt
              eq_refl eq_refl eq_refl)))).
Defined.

Lemma C2_credential_unset_witness :
  method hello = "POST" /\ valid_input hello = true /\
  truthy_str (API_KEY env_without_key) = false /\
  (reply (generate env_without_key upstream_ok hello) = Some not_configured /\
   status not_configured = 500%Z /\
   outbound (generate env_without_key upstream_ok hello) = []).
Proof.
  exact (conj eq_refl (conj eq_refl (conj eq_refl
           (C2_credential_unset env_without_key upstream_ok hello
              eq_refl eq_refl eq_refl)))).
Defined.

Lemma sample_key_not_empty : "k" <> "".
Proof. discriminate. Defined.

(** C3, as stated, fails on an image sent with the prompt field present but
    empty (what the chat client sends for an image without text): the
    prompt was supplied, yet the text part is the default prompt, not the
    supplied one. *)
Lemma C3_counterexample :
  file picture_with_empty_prompt = Some picture /\
  get_prop (body picture_with_empty_prompt) "prompt" = JStr "" /\
  ~ (exists call,
       outbound (generate env_with_key upstream_ok picture_with_empty_prompt) = [call] /\
       text_of_parts (fetch_body call) =
         [text_part_as_specified picture_with_empty_prompt]).
Proof.
  split; [reflexivity | split; [reflexivity |]].
  intros (call & Hout & Htext).
  vm_compute in Hout. injection Hout as <-.
  vm_compute in Htext. discriminate Htext.
Qed.

Lemma C3_multimodal_body_witness :
  method picture_with_prompt = "POST" /\ file picture_with_prompt = Some picture /\
  API_KEY env_with_key = Some "k" /\
  outbound (generate env_with_key upstream_ok picture_with_prompt) =
    [upstream_call "k"
       (JObj [("contents", JArr [
          JObj [("parts", JArr [
            JObj [("inline_data", JObj [("mime_type", JStr "image/jpeg");
                                        ("data", JStr "Zm9v")])];
            JObj [("text", JStr "Who is this?")]
          ])]
       ])])].
Proof.
  exact (conj eq_refl (conj eq_refl (conj eq_refl
           (C3_multimodal_body env_with_key upstream_ok picture_with_prompt picture "k"
              eq_refl eq_refl eq_refl sample_key_not_empty)))).
Defined.

Lemma hello_not_empty : "Hello" <> "".
Proof. discriminate. Defined.

(** The end-to-end example of the specification: prompt "Hello", no image. *)
Lemma C4_text_only_body_witness :
  method hello = "POST" /\ file hello = None /\ prompt_of hello = JStr "Hello" /\
  API_KEY env_with_key = Some "k" /\
  outbound (generate env_with_key upstream_ok hello) =
    [upstream_call "k"
       (JObj [("contents", JArr [ JObj [("parts", JArr [ JObj [("text", JStr "Hello")] ])] ])])].
Proof.
  exact (conj eq_refl (conj eq_refl (conj eq_refl (conj eq_refl
           (C4_text_only_body env_with_key upstream_ok hello "Hello" "k"
              eq_refl eq_refl eq_refl hello_not_empty eq_refl sample_key_not_empty))))).
Defined.

Lemma C5_upstream_passthrough_witness :
  method hello = "POST" /\
  outbound (generate env_with_key upstream_429 hello) =
    [upstream_call "k" (textRequest (JStr "Hello"))] /\
  reply (generate env_with_key upstream_429 hello) =
    Some {| status := 429;
            payload := JsonBody (JObj [("error", JStr "Gemini API request failed");
                                       ("details", quota_error)]) |}.
Proof.
  exact (conj eq_refl (conj eq_refl
           (C5_upstream_passthrough env_with_key upstream_429 hello
              (upstream_call "k" (textRequest (JStr "Hello"))) 429 quota_error
              eq_refl eq_refl eq_refl))).
Defined.

Lemma C5_success_example :
  reply (generate env_with_key upstream_ok hello) =
    Some {| status := 200; payload := JsonBody hi_there |}.
Proof. reflexivity. Qed.

(** C5, as stated, fails when the upstream's error body is not JSON: a 503
    with an HTML page makes [response.json()] reject, and the [catch] block
    answers 500 "Internal server error" instead of 503 with the envelope. *)
Lemma C5_counterexample :
  outbound (generate env_with_key MoreSamples.upstream_503_html hello) =
    [upstream_call "k" (textRequest (JStr "Hello"))] /\
  MoreSamples.upstream_503_html (upstream_call "k" (textRequest (JStr "Hello"))) =
    Resolved MoreSamples.service_unavailable /\
  response_status MoreSamples.service_unavailable = 503%Z /\
  ok MoreSamples.service_unavailable = false /\
  reply (generate env_with_key MoreSamples.upstream_503_html hello) =
    Some (RelayReplies.internal_error "Unexpected token '<' is not valid JSON") /\
  status (RelayReplies.internal_error "Unexpected token '<' is not valid JSON") <> 503%Z.
Proof.
  split; [reflexivity |]. split; [reflexivity |]. split; [reflexivity |].
  split; [reflexivity |]. split; [reflexivity | discriminate].
Qed.

(** C6, as stated, fails three times: a GET from a foreign origin is not
    rejected (the middleware passes it on and the route answers it); the
    answer to a pre-flight request has a body, the status text; and a
    pre-flight request whose JSON body cannot be parsed is stopped by
    [express.json()] before the middleware, so it gets neither the 200 nor
    any Access-Control header. *)
Lemma C6_counterexample :
  origin foreign_get <> Some allowed_origin /\
  ~ rejected_at_boundary foreign_get /\
  reply (RelayApp.app env_with_key upstream_ok
           (RelayApp.BodyRead foreign_get RelayApp.RootPath)) =
    Some {| status := 200;
            payload := JsonBody (JObj [("message", JStr "Gemini API Server is running")]) |} /\
  method preflight = "OPTIONS" /\
  reply (RelayApp.app env_with_key upstream_ok
           (RelayApp.BodyRead preflight RelayApp.GeminiPath)) <>
    Some {| status := 200; payload := TextBody "" |} /\
  reply (RelayApp.app env_with_key upstream_ok MoreSamples.broken_preflight) = None /\
  headers (RelayApp.app env_with_key upstream_ok MoreSamples.broken_preflight) = [].
Proof.
  split; [discriminate |]. split.
  - intros (r & Hr & _). discriminate Hr.
  - split; [reflexivity |]. split; [reflexivity |].
    split; [discriminate |]. split; reflexivity.
Qed.

Lemma options_is_options : "OPTIONS" = "OPTIONS".
Proof. reflexivity. Defined.

Lemma get_is_not_options : "GET" <> "OPTIONS".
Proof. discriminate. Defined.

Lemma C6_cors_policy_witness :
  method preflight = "OPTIONS" /\
  reply (RelayApp.app env_with_key upstream_ok
           (RelayApp.BodyRead preflight RelayApp.GeminiPath)) =
    Some {| status := 200; payload := TextBody "OK" |} /\
  outbound (RelayApp.app env_with_key upstream_ok
              (RelayApp.BodyRead preflight RelayApp.GeminiPath)) = [] /\
  method foreign_get <> "OPTIONS" /\
  snd (cors foreign_get) = Next /\
  RelayApp.parsed (RelayApp.BodyRead foreign_get RelayApp.RootPath) = true /\
  In ("Access-Control-Allow-Origin", allowed_origin)
     (headers (RelayApp.app env_with_key upstream_ok
                 (RelayApp.BodyRead foreign_get RelayApp.RootPath))) /\
  RelayApp.parsed MoreSamples.broken_preflight = false /\
  headers (RelayApp.app env_with_key upstream_ok MoreSamples.broken_preflight) = [].
Proof.
  pose proof (C6_cors_policy env_with_key upstream_ok) as (Hh & _ & Hn & Hp & Hr).
  destruct (Hp preflight RelayApp.GeminiPath options_is_options) as [Hreply Hout].
  exact (conj eq_refl (conj Hreply (conj Hout (conj get_is_not_options
           (conj (Hn foreign_get get_is_not_options)
              (conj eq_refl
                 (conj (Hh (RelayApp.BodyRead foreign_get RelayApp.RootPath) eq_refl)
                    (conj eq_refl
                       (proj1 (Hr MoreSamples.broken_preflight eq_refl)))))))))).
Defined.

Lemma C10_empty_prompt_defaults_witness :
  method picture_with_empty_prompt = "POST" /\
  file picture_with_empty_prompt = Some picture /\
  get_prop (body picture_with_empty_prompt) "prompt" = JStr "" /\
  API_KEY env_with_key = Some "k" /\
  exists call,
    outbound (generate env_with_key upstream_ok picture_with_empty_prompt) = [call] /\
    text_of_parts (fetch_body call) =
      [JStr "What is in this image? Describe it in detail."].
Proof.
  exact (conj eq_refl (conj eq_refl (conj eq_refl (conj eq_refl
           (C10_empty_prompt_defaults env_with_key upstream_ok picture_with_empty_prompt
              picture "k" eq_refl eq_refl eq_refl eq_refl sample_key_not_empty))))).
Defined.

End RelaySamples.

(** ** The chat client *)

Section ClientClaims.
Import ChatClient.

Variable marked_parse : string -> string.
Variable marked_type_error : JsVal -> string.
Variable image_input_in_form : bool.
Variable document : Document.

Local Abbreviation handleOutgoingMessage :=
  (ChatClient.handleOutgoingMessage image_input_in_form).
Local Abbreviation on_submit := (ChatClient.on_submit image_input_in_form).
Local Abbreviation settle := (ChatClient.settle marked_parse marked_type_error document).
Local Abbreviation tick := (ChatClient.tick document).
Local Abbreviation catch := (ChatClient.catch document).
Local Abbreviation step :=
  (ChatClient.step marked_parse marked_type_error image_input_in_form document).
Local Abbreviation reachable :=
  (ChatClient.reachable marked_parse marked_type_error image_input_in_form document).

(** The guard of [handleOutgoingMessage]. *)
Lemma handleOutgoingMessage_guard (st : State) :
  (truthy_str (prompt st) = false /\ attachedImageFile st = None)
  \/ isResponseGenerating st = true ->
  handleOutgoingMessage st = st.
Proof.
  unfold ChatClient.handleOutgoingMessage.
  intros [[Hp Ha] | Hg].
  - rewrite Hp, Ha. reflexivity.
  - rewrite Hg, orb_true_r. reflexivity.
Qed.

(** C7: a submit whose trimmed text is empty with no image attached, or
    made while a response is being generated, changes nothing:
    [handleOutgoingMessage] returns the state it was given, so the visible
    list, the message elements, the history and the outstanding requests
    and timers are those from before the submit (the listener itself has
    only stored the text in [prompt]).  The same holds for a click on a
    suggestion chip while a response is being generated. *)
Theorem C7_submit_ignored (st : State) :
  (Str.trim (promptInput st) = "" /\ attachedImageFile st = None)
  \/ isResponseGenerating st = true ->
  let entered := set_prompt (Some (Str.trim (promptInput st))) st in
  handleOutgoingMessage entered = entered /\
  on_submit st = entered /\
  chatList (on_submit st) = chatList st /\
  elements (on_submit st) = elements st /\
  chatHistory (on_submit st) = chatHistory st /\
  requests (on_submit st) = requests st /\
  loadingTimers (on_submit st) = loadingTimers st /\
  isResponseGenerating (on_submit st) = isResponseGenerating st /\
  attachedImageFile (on_submit st) = attachedImageFile st /\
  (forall text, isResponseGenerating st = true ->
     ChatClient.on_suggestion image_input_in_form text st = set_prompt (Some text) st).
Proof.
  intros H entered.
  assert (Hg : handleOutgoingMessage entered = entered).
  { apply handleOutgoingMessage_guard. subst entered. simpl.
    destruct H as [[Ht Ha] | Hg]; [left | right; exact Hg].
    rewrite Ht. split; [reflexivity | exact Ha]. }
  unfold ChatClient.on_submit. fold entered. rewrite Hg.
  repeat split.
  intros text Hflag. apply handleOutgoingMessage_guard. right. exact Hflag.
Qed.

(** *** The pending attachment *)

Lemma handleOutgoingMessage_attachment (st : State) :
  imagePreview (handleOutgoingMessage st) = imagePreview st /\
  attachedImageFile (handleOutgoingMessage st) = attachedImageFile st.
Proof.
  unfold ChatClient.handleOutgoingMessage, processPrompt, reset_form.
  destruct (_ || _); [split; reflexivity |].
  destruct (attachedImageFile st) eqn:Ha; simpl; rewrite ?Ha;
    destruct image_input_in_form; simpl; rewrite ?Ha; split; reflexivity.
Qed.

Lemma tick_attachment (interval : nat) (st : State) :
  imagePreview (tick interval st) = imagePreview st /\
  attachedImageFile (tick interval st) = attachedImageFile st.
Proof.
  unfold ChatClient.tick, finish_if_done, decorate, reveal_word.
  destruct (intervals st !! interval) as [t|] eqn:Hi; simpl.
  - rewrite lookup_insert_eq. simpl. branch; split; reflexivity.
  - rewrite Hi. split; reflexivity.
Qed.

Lemma catch_attachment (message : string) (st : State) :
  imagePreview (catch message st) = imagePreview st /\
  attachedImageFile (catch message st) = attachedImageFile st.
Proof. unfold ChatClient.catch, remove_loading. simpl. branch; split; reflexivity. Qed.

Lemma catch_history (message : string) (st : State) :
  chatHistory (catch message st) = chatHistory st.
Proof. unfold ChatClient.catch, remove_loading. simpl. look; reflexivity. Qed.

Lemma catch_preview_matches (message : string) (st : State) :
  preview_matches st -> preview_matches (catch message st).
Proof.
  unfold preview_matches, pending_attachments.
  destruct (catch_attachment message st) as [-> ->]. exact (fun H => H).
Qed.

Lemma second_then_preview_matches (userPrompt : option string) (data : JsVal) (st : State) :
  preview_matches st ->
  match ChatClient.second_then marked_parse marked_type_error document userPrompt data st with
  | Done st' | Threw st' _ => preview_matches st'
  end.
Proof.
  unfold preview_matches, pending_attachments. intros H.
  unfold second_then, remove_loading.
  destruct (loading_elsewhere document (lookups st)); simpl;
    (destruct (truthy (reply_text data)); simpl; [| exact H]);
    (destruct (reply_text data); simpl; try exact H);
    (destruct (attachedImageFile st) eqn:Ha; simpl; rewrite ?Ha; simpl;
       [| rewrite ?Ha; exact H]);
    unfold decorate; simpl; destruct (decoration_error _ _); simpl; rewrite ?Ha;
    simpl; rewrite ?Ha; try reflexivity; exact H.
Qed.

Lemma settle_preview_matches (i : nat) (settled : FetchResult) (st : State) :
  preview_matches st -> preview_matches (settle i settled st).
Proof.
  unfold ChatClient.settle. intros H.
  destruct (requests st !! i) as [request|]; [| exact H].
  assert (H0 : preview_matches (set_requests (delete i (requests st)) st)) by exact H.
  revert H0. generalize (set_requests (delete i (requests st)) st). clear H. intros s H.
  destruct (first_then settled) as [e | data]; [apply catch_preview_matches; exact H |].
  pose proof (second_then_preview_matches (userPrompt request) data s H) as H2.
  destruct (ChatClient.second_then _ _ _ _ _ _); [exact H2 |].
  apply catch_preview_matches. exact H2.
Qed.

Lemma step_preview_matches (ev : Event) (st : State) :
  preview_matches st -> preview_matches (step ev st).
Proof.
  intros H. destruct ev as [value | | text | files | | | i settled | interval | confirmed];
    simpl.
  - exact H.
  - unfold ChatClient.on_submit, preview_matches, pending_attachments.
    destruct (handleOutgoingMessage_attachment
                (set_prompt (Some (Str.trim (promptInput st))) st)) as [-> ->].
    exact H.
  - unfold ChatClient.on_suggestion, preview_matches, pending_attachments.
    destruct (handleOutgoingMessage_attachment (set_prompt (Some text) st)) as [-> ->].
    exact H.
  - destruct files as [| file rest]; [exact H | reflexivity].
  - destruct (imagePreview st) eqn:Hp; [exact H | reflexivity].
  - destruct (loadingTimers st); exact H.
  - apply settle_preview_matches, H.
  - unfold preview_matches, pending_attachments.
    destruct (tick_attachment interval st) as [-> ->]. exact H.
  - destruct confirmed; [reflexivity | exact H].
Qed.

Lemma reachable_preview_matches (st : State) :
  reachable st -> preview_matches st.
Proof.
  induction 1 as [| ev st _ IH]; [reflexivity | apply step_preview_matches, IH].
Qed.

(** C9: in every reachable state the page shows at most one pending
    attachment, namely the file held in [attachedImageFile]; and picking an
    image while one is pending leaves exactly the newly picked file
    pending, in the variable and in the preview. *)
Theorem C9_single_attachment (st : State) :
  reachable st ->
  length (pending_attachments st) <= 1 /\
  pending_attachments st = option_list (attachedImageFile st) /\
  forall (file : File) (others : list File),
    let st' := step (PickImage (file :: others)) st in
    attachedImageFile st' = Some file /\
    pending_attachments st' = [file] /\
    reachable st'.
Proof.
  intros Hr. pose proof (reachable_preview_matches st Hr) as H.
  split; [| split].
  - rewrite H. destruct (attachedImageFile st); simpl; lia.
  - exact H.
  - intros file others st'. split; [reflexivity | split; [reflexivity |]].
    apply reachable_step, Hr.
Qed.

(** *** The typing effect *)

Lemma split_length (s : string) : 1 <= length (Str.split s).
Proof.
  induction s as [| c rest IH]; simpl; [lia |].
  destruct (Ascii.eqb c " "); simpl; [lia |].
  destruct (Str.split rest); simpl in *; lia.
Qed.

(** [split(" ")] yields one more piece than the text has spaces. *)
Lemma split_counts_spaces (s : string) :
  length (Str.split s) =
    S (length (filter (fun c => c = " "%char) (list_ascii_of_string s))).
Proof.
  induction s as [| c rest IH]; [reflexivity |].
  simpl. destruct (Ascii.eqb_spec c " ") as [-> | Hc].
  - rewrite filter_cons_True by reflexivity. simpl. rewrite IH. reflexivity.
  - rewrite filter_cons_False by exact Hc.
    destruct (Str.split rest); simpl in *; [discriminate IH | exact IH].
Qed.

Lemma tokens_snoc (ws : list string) (k : nat) (w : string) :
  ws !! k = Some w ->
  tokens (take (S k) ws) =
    tokens (take k ws) ++ [(if (k =? 0)%nat then "" else " ") +:+ w].
Proof.
  intros Hw. unfold tokens. rewrite (take_S_r ws k w Hw), imap_app. simpl.
  rewrite length_take_le, Nat.add_0_r; [reflexivity |].
  apply Nat.lt_le_incl, lookup_lt_is_Some. eauto.
Qed.

(** The first statement of the callback appends the next token. *)
Lemma reveal_word_appends interval div ws parsed k (st : State) :
  revealing interval div ws parsed k st -> k < length ws ->
  revealing interval div ws parsed (S k) (reveal_word interval st) /\
  isResponseGenerating (reveal_word interval st) = isResponseGenerating st.
Proof.
  intros [Hi (m & Hm & Hp)] Hk.
  destruct (lookup_lt_is_Some_2 ws k Hk) as [w Hw].
  unfold revealing, reveal_word, update. rewrite Hi. simpl.
  split; [split |]; [| | reflexivity].
  - rewrite lookup_insert_eq. reflexivity.
  - exists (append_text ((if (k =? 0)%nat then "" else " ") +:+ Str.word_at ws k) m).
    split.
    + rewrite lookup_alter_eq, Hm. reflexivity.
    + simpl. rewrite Hp. unfold Str.word_at.
      rewrite (nth_lookup_Some ws k "undefined" w Hw). symmetry.
      apply tokens_snoc, Hw.
Qed.

(** Before the last word the callback leaves the interval running. *)
Lemma tick_continues interval div ws parsed k (st : State) :
  revealing interval div ws parsed k st -> S k < length ws ->
  revealing interval div ws parsed (S k) (tick interval st) /\
  isResponseGenerating (tick interval st) = isResponseGenerating st.
Proof.
  intros Hr Hk.
  destruct (reveal_word_appends interval div ws parsed k st Hr) as [Hr' Hg]; [lia |].
  unfold ChatClient.tick, finish_if_done, decorate. destruct Hr' as [Hi Hm]. rewrite Hi.
  cbn [currWordIndex words].
  destruct (Nat.eqb_spec (S k) (length ws)); [lia |].
  split; [split; assumption | exact Hg].
Qed.

(** On the last word it stops the interval, clears the flag and replaces the
    text by the parsed markup. *)
Lemma tick_finishes interval div ws parsed k (st : State) :
  revealing interval div ws parsed k st -> S k = length ws ->
  intervals (tick interval st) !! interval = None /\
  isResponseGenerating (tick interval st) = false /\
  exists m, elements (tick interval st) !! div = Some m /\ text m = Html parsed.
Proof.
  intros Hr Hk.
  destruct (reveal_word_appends interval div ws parsed k st Hr) as [Hr' _]; [lia |].
  unfold ChatClient.tick, finish_if_done, decorate. destruct Hr' as [Hi (m & Hm & _)]. rewrite Hi.
  cbn [currWordIndex words incomingMessageDiv parsedText].
  rewrite Hk, Nat.eqb_refl. unfold update. simpl.
  destruct (decoration_error document (lookups (reveal_word interval st))); simpl.
  - split; [apply lookup_delete_eq |]. split; [reflexivity |].
    exists (with_text (Html parsed) m). split; [| reflexivity].
    rewrite lookup_alter_eq, Hm. reflexivity.
  - split; [apply lookup_delete_eq |]. split; [reflexivity |].
    exists (with_icon_hidden false (with_text (Html parsed) m)). split; [| reflexivity].
    rewrite !lookup_alter_eq, Hm. reflexivity.
Qed.


(** Once its interval is cleared the callback never runs again. *)
Lemma tick_stopped interval (st : State) :
  intervals st !! interval = None -> tick interval st = st.
Proof.
  intros Hi. unfold ChatClient.tick, reveal_word. rewrite Hi.
  unfold finish_if_done, decorate. rewrite Hi. reflexivity.
Qed.

(** A successful reply that arrives while no image is attached starts the
    typing effect on a new incoming message. *)
Lemma settle_starts_typing (st : State) (i : nat) (request : Pending)
    (r : Response) (data : JsVal) (T : string) :
  requests st !! i = Some request ->
  ok r = true -> response_json r = Json data ->
  reply_text data = JStr T -> T <> "" ->
  attachedImageFile st = None ->
  revealing (nextInterval st) (nextElement st) (Str.split T) (marked_parse T) 0
            (settle i (Resolved r) st) /\
  nextElement st ∈ chatList (settle i (Resolved r) st).
Proof.
  intros Hreq Hok Hjson Htext HT Ha.
  unfold revealing, ChatClient.settle. rewrite Hreq.
  unfold first_then. rewrite Hok, Hjson. simpl.
  unfold second_then, decorate, remove_loading. rewrite Htext.
  replace (truthy (JStr T)) with true
    by (simpl; destruct (String.eqb_spec T ""); [contradiction | reflexivity]).
  simpl. destruct (loading_elsewhere document (lookups st)); simpl; rewrite Ha; simpl;
    rewrite Ha; simpl; (split; [split |]);
    try (rewrite lookup_insert_eq; reflexivity);
    try (apply elem_of_app; right; apply list_elem_of_singleton; reflexivity);
    (eexists; split; [rewrite lookup_alter_eq, lookup_insert_eq; reflexivity | reflexivity]).
Qed.


End ClientClaims.

(** ** The client claims on sample runs *)

Section ClientSamples.
Import ChatClient Samples.

(** Submitting the empty form of a freshly loaded page. *)
Lemma C7_submit_ignored_witness :
  ((Str.trim (promptInput init) = "" /\ attachedImageFile init = None)
   \/ isResponseGenerating init = true) /\
  on_submit true init = set_prompt (Some "") init /\
  chatList (on_submit true init) = [] /\
  requests (on_submit true init) = [].
Proof.
  pose proof (C7_submit_ignored true init (or_introl (conj eq_refl eq_refl))) as H.
  destruct H as (_ & Hs & Hc & _ & _ & Hq & _).
  exact (conj (or_introl (conj eq_refl eq_refl)) (conj Hs (conj Hc Hq))).
Defined.

(** A second submit while the first is in flight. *)
Example second_submit_dropped :
  step marked_stub marked_error_stub true plain_page Submit
    (step marked_stub marked_error_stub true plain_page (TypeText "again") hello_sent)
  = set_prompt (Some "again") (set_promptInput "again" hello_sent).
Proof. reflexivity. Qed.



Example reveal_hi_there :
  tokens (Str.split "Hi there") = ["Hi"; " there"].
Proof. reflexivity. Qed.

Lemma two_picks_reachable :
  reachable marked_stub marked_error_stub true plain_page two_picks.
Proof.
  exact (reachable_step marked_stub marked_error_stub true plain_page (PickImage [dog_png]) _
           (reachable_step marked_stub marked_error_stub true plain_page (PickImage [cat_png]) _
              (reachable_init marked_stub marked_error_stub true plain_page))).
Defined.

(** Picking a second image, and then a third. *)
Lemma C9_single_attachment_witness :
  reachable marked_stub marked_error_stub true plain_page two_picks /\
  attachedImageFile two_picks = Some dog_png /\
  length (pending_attachments two_picks) <= 1 /\
  pending_attachments
    (step marked_stub marked_error_stub true plain_page (PickImage [cat_png]) two_picks) = [cat_png].
Proof.
  pose proof (C9_single_attachment marked_stub marked_error_stub true plain_page two_picks
                two_picks_reachable) as H.
  destruct H as (Hl & _ & Hpick).
  destruct (Hpick cat_png []) as (_ & Hp & _).
  exact (conj two_picks_reachable (conj eq_refl (conj Hl Hp))).
Defined.

End ClientSamples.

(** * Further properties of the code *)

(** ** The relay, whatever the request *)

Section RelayTotals.
Import Relay RelayReplies.

Variable env : Env.
Variable up : Upstream.

(** What the handler does on its own log, in the three cases. *)
Lemma gemini_cases (req : Request) :
  (valid_input req = false /\ gemini env req up [] = (Sent missing_input, [])) \/
  (valid_input req = true /\ truthy_str (API_KEY env) = false /\
   gemini env req up [] = (Sent not_configured, [])) \/
  (exists key r,
     valid_input req = true /\ API_KEY env = Some key /\ key <> "" /\
     gemini env req up [] = (Sent r, [upstream_call key (request_body req)]) /\
     match upstream_exception up (upstream_call key (request_body req)) with
     | Some e => r = internal_error e
     | None =>
         exists resp B,
           up (upstream_call key (request_body req)) = Resolved resp /\
           response_json resp = Json B /\
           r = if ok resp then {| status := 200; payload := JsonBody B |}
               else {| status := response_status resp;
                       payload := JsonBody (JObj [("error", JStr "Gemini API request failed");
                                                  ("details", B)]) |}
     end).
Proof.
  destruct (valid_input req) eqn:Hv.
  2:{ left. split; [reflexivity | apply gemini_invalid, Hv]. }
  destruct (truthy_str (API_KEY env)) eqn:Hk.
  2:{ right. left. split; [reflexivity |]. split; [reflexivity |].
      apply gemini_not_configured; assumption. }
  right. right. destruct (key_set _ Hk) as (key & Hkey & Hne).
  pose proof (gemini_forwards env up req key Hv Hkey Hne) as Hg. cbv zeta in Hg.
  destruct (up (upstream_call key (request_body req))) as [resp | e] eqn:Hup.
  - destruct (response_json resp) as [B | e] eqn:Hj.
    + exists key, (if ok resp then {| status := 200; payload := JsonBody B |}
                   else {| status := response_status resp;
                           payload := JsonBody (JObj [("error", JStr "Gemini API request failed");
                                                      ("details", B)]) |}).
      split; [reflexivity |]. split; [exact Hkey |]. split; [exact Hne |].
      split; [rewrite Hg; destruct (ok resp); reflexivity |].
      unfold upstream_exception. rewrite Hup, Hj. exists resp, B.
      split; [reflexivity |]. split; [exact Hj |]. reflexivity.
    + eexists key, _.
      split; [reflexivity |]. split; [exact Hkey |]. split; [exact Hne |].
      split; [exact Hg |]. unfold upstream_exception. rewrite Hup, Hj. reflexivity.
  - eexists key, _.
    split; [reflexivity |]. split; [exact Hkey |]. split; [exact Hne |].
    split; [exact Hg |]. unfold upstream_exception. rewrite Hup. reflexivity.
Qed.

(** X1: every POST to /api/gemini that reaches the handler is answered; a
    request to that path costs at most one upstream call, and none at all
    when its method is not POST. *)
Theorem generate_answers_once (req : Request) :
  (method req = "POST" -> exists r, reply (generate env up req) = Some r) /\
  length (outbound (generate env up req)) <= 1 /\
  (method req <> "POST" -> outbound (generate env up req) = []).
Proof.
  split; [| split].
  - intros Hm. rewrite generate_post by exact Hm. unfold run.
    destruct (gemini_cases req) as [[_ ->] | [(_ & _ & ->) | (key & r & _ & _ & _ & -> & _)]];
      simpl; eexists; reflexivity.
  - unfold generate.
    destruct (String.eqb_spec (method req) "POST") as [Hm | Hm].
    + unfold serve, cors. rewrite Hm. simpl. unfold run.
      destruct (gemini_cases req) as [[_ ->] | [(_ & _ & ->) | (key & r & _ & _ & _ & -> & _)]];
        simpl; lia.
    + unfold serve, cors. destruct (String.eqb (method req) "OPTIONS"); simpl; lia.
  - intros Hm. unfold generate.
    destruct (String.eqb_spec (method req) "POST") as [Hp | _]; [contradiction |].
    unfold serve, cors. destruct (String.eqb (method req) "OPTIONS"); reflexivity.
Qed.

(** X2: the upstream is called exactly when the input is valid and the key is
    configured, and then once, at the API URL carrying the key. *)
Theorem upstream_called_exactly_when (req : Request) :
  method req = "POST" ->
  outbound (generate env up req) =
    if valid_input req && truthy_str (API_KEY env)
    then [upstream_call (interpolate (API_KEY env)) (request_body req)]
    else [].
Proof.
  intros Hm. rewrite generate_post by exact Hm. unfold run.
  destruct (gemini_cases req)
    as [[Hv ->] | [(Hv & Hk & ->) | (key & r & Hv & Hk & Hne & -> & _)]]; simpl.
  - rewrite Hv. reflexivity.
  - rewrite Hv, Hk. reflexivity.
  - rewrite Hv, Hk. simpl. destruct (String.eqb_spec key ""); [contradiction | reflexivity].
Qed.

(** X3: the "missing input" reply is given exactly when validation fails. *)
Theorem missing_input_iff (req : Request) :
  method req = "POST" ->
  (reply (generate env up req) = Some missing_input <-> valid_input req = false).
Proof.
  intros Hm. rewrite generate_post by exact Hm. unfold run.
  destruct (gemini_cases req)
    as [[Hv ->] | [(Hv & Hk & ->) | (key & r & Hv & Hk & Hne & -> & Hr)]]; simpl.
  - split; [intros _; exact Hv | reflexivity].
  - split; [discriminate | congruence].
  - split; [| congruence]. intros Heq. exfalso.
    destruct (upstream_exception _ _).
    + subst r. discriminate Heq.
    + destruct Hr as (resp & B & _ & _ & ->). destruct (ok resp); discriminate Heq.
Qed.

(** X4: when [fetch] rejects, or the upstream body is not JSON (whatever the
    upstream status), the reply is the 500 "Internal server error" carrying
    the error's message. *)
Theorem exceptions_become_500 (req : Request) (key e : string) :
  method req = "POST" -> valid_input req = true ->
  API_KEY env = Some key -> key <> "" ->
  upstream_exception up (upstream_call key (request_body req)) = Some e ->
  reply (generate env up req) = Some (internal_error e) /\
  outbound (generate env up req) = [upstream_call key (request_body req)].
Proof.
  intros Hm Hv Hk Hne He. rewrite generate_post by exact Hm. unfold run.
  destruct (gemini_cases req)
    as [[Hv' _] | [(_ & Hk' & _) | (key' & r & _ & Hk' & _ & -> & Hr)]].
  - congruence.
  - rewrite Hk in Hk'. simpl in Hk'.
    destruct (String.eqb_spec key ""); [contradiction | discriminate].
  - assert (key' = key) as -> by congruence. rewrite He in Hr. subst r.
    split; reflexivity.
Qed.

(** X5: a 200 reply to a Generate call is never made up: the upstream was
    called, answered with a 2xx status and a JSON body, and the reply is
    that body. *)
Theorem success_only_from_upstream (req : Request) (r : Reply) :
  method req = "POST" ->
  reply (generate env up req) = Some r -> status r = 200%Z ->
  exists call resp B,
    outbound (generate env up req) = [call] /\
    up call = Resolved resp /\ ok resp = true /\
    response_json resp = Json B /\ payload r = JsonBody B.
Proof.
  intros Hm. rewrite generate_post by exact Hm. unfold run.
  destruct (gemini_cases req)
    as [[_ ->] | [(_ & _ & ->) | (key & r' & _ & _ & _ & -> & Hr)]]; simpl.
  - intros [= <-]. discriminate.
  - intros [= <-]. discriminate.
  - intros [= <-] Hs. destruct (upstream_exception _ _).
    + subst r'. discriminate Hs.
    + destruct Hr as (resp & B & Hup & Hj & ->).
      exists (upstream_call key (request_body req)), resp, B.
      destruct (ok resp) eqn:Hok.
      * repeat split; assumption.
      * exfalso. simpl in Hs. unfold ok in Hok. rewrite Hs in Hok. discriminate Hok.
Qed.

(** X6: [GET /api/config] hands the credential to any caller: the reply does
    not depend on the request at all, and a foreign origin gets the key as
    well. *)
Theorem config_echoes_key (req : Request) :
  method req <> "OPTIONS" ->
  reply (serve env up GetConfig req) = Some (config_reply env) /\
  outbound (serve env up GetConfig req) = [].
Proof.
  intros Hm. unfold serve, cors.
  destruct (String.eqb_spec (method req) "OPTIONS"); [contradiction |].
  split; reflexivity.
Qed.

End RelayTotals.

(** ** Base64: what is sent can be read back *)

Section Base64Properties.
Import Base64 Base64Decode.

Lemma land_shifted_small (x y k : N) :
  (y < 2 ^ k)%N -> N.land (x * 2 ^ k) y = 0%N.
Proof.
  intros Hy. apply N.bits_inj. intros i. rewrite N.land_spec, N.bits_0.
  destruct (N.lt_ge_cases i k) as [Hi | Hi].
  - rewrite N.mul_pow2_bits_low by exact Hi. reflexivity.
  - destruct (N.eq_dec y 0%N) as [-> | Hy0]; [rewrite N.bits_0; apply andb_false_r |].
    rewrite (N.bits_above_log2 y i); [apply andb_false_r |].
    apply N.log2_lt_pow2 in Hy; lia.
Qed.

Lemma lor_shiftl_add (x y k : N) :
  (y < 2 ^ k)%N -> N.lor (N.shiftl x k) y = (x * 2 ^ k + y)%N.
Proof.
  intros Hy. rewrite N.shiftl_mul_pow2.
  rewrite <- N.lxor_lor by (apply land_shifted_small, Hy).
  symmetry. apply N.add_nocarry_lxor, land_shifted_small, Hy.
Qed.

(** The 24-bit group of three bytes, as a sum. *)
Lemma group_sum (b0 b1 b2 : Byte.byte) :
  group b0 b1 b2 = (Byte.to_N b0 * 65536 + Byte.to_N b1 * 256 + Byte.to_N b2)%N.
Proof.
  unfold group.
  pose proof (Byte.to_N_bounded b0). pose proof (Byte.to_N_bounded b1).
  pose proof (Byte.to_N_bounded b2).
  rewrite (lor_shiftl_add (Byte.to_N b1) (Byte.to_N b2) 8) by (simpl; lia).
  rewrite lor_shiftl_add by (simpl; lia). simpl (2 ^ _)%N. lia.
Qed.

(** Every digit is an alphabet character, never the padding, and stands for
    the low six bits it was made from. *)
Lemma digit_below (k : nat) :
  k < 64 ->
  exists c, String.get k alphabet = Some c /\ value c = Some (N.of_nat k) /\
            Ascii.eqb c "=" = false.
Proof.
  intros Hk.
  do 64 (destruct k as [| k]; [eexists; split; [reflexivity | split; reflexivity] |]).
  lia.
Qed.

Lemma value_digit (x : N) :
  value (digit x) = Some (x mod 64)%N /\ Ascii.eqb (digit x) "=" = false.
Proof.
  unfold digit. change 63%N with (N.ones 6). rewrite N.land_ones.
  change (2 ^ 6)%N with 64%N.
  assert (Hlt : N.to_nat (x mod 64) < 64).
  { pose proof (N.mod_upper_bound x 64). lia. }
  destruct (digit_below _ Hlt) as (c & -> & Hv & Hp).
  rewrite N2Nat.id in Hv. split; assumption.
Qed.

Lemma shiftr_mod (n k : N) : (N.shiftr n k mod 64 = (n / 2 ^ k) mod 64)%N.
Proof. rewrite N.shiftr_div_pow2. reflexivity. Qed.

(** The four digits of a group give the three bytes back. *)
Lemma sextets_to_bytes (a b c : N) :
  (a < 256 -> b < 256 -> c < 256 ->
   let n := a * 65536 + b * 256 + c in
   let d0 := (n / 2 ^ 18) mod 64 in
   let d1 := (n / 2 ^ 12) mod 64 in
   let d2 := (n / 2 ^ 6) mod 64 in
   let d3 := n mod 64 in
   d0 * 4 + d1 / 16 = a /\
   (d1 mod 16) * 16 + d2 / 4 = b /\
   (d2 mod 4) * 64 + d3 = c)%N.
Proof.
  intros Ha Hb Hc. cbv zeta. simpl (2 ^ _)%N.
  repeat split; zify; Z.to_euclidean_division_equations; lia.
Qed.

Lemma decode_group (b0 b1 b2 : Byte.byte) :
  let n := group b0 b1 b2 in
  let d0 := (N.shiftr n 18 mod 64)%N in
  let d1 := (N.shiftr n 12 mod 64)%N in
  let d2 := (N.shiftr n 6 mod 64)%N in
  let d3 := (n mod 64)%N in
  Byte.of_N (d0 * 4 + d1 / 16) = Some b0 /\
  Byte.of_N ((d1 mod 16) * 16 + d2 / 4) = Some b1 /\
  Byte.of_N ((d2 mod 4) * 64 + d3) = Some b2.
Proof.
  cbv zeta. rewrite !shiftr_mod, group_sum.
  destruct (sextets_to_bytes (Byte.to_N b0) (Byte.to_N b1) (Byte.to_N b2))
    as (H0 & H1 & H2);
    try (match goal with |- (Byte.to_N ?b < _)%N =>
           pose proof (Byte.to_N_bounded b); lia end).
  cbv zeta in H0, H1, H2. rewrite H0, H1, H2, !Byte.of_to_N. repeat split.
Qed.

(** Lists, three elements at a time. *)
Lemma list_ind3 {A} (P : list A -> Prop) :
  P [] -> (forall a, P [a]) -> (forall a b, P [a; b]) ->
  (forall a b c rest, P rest -> P (a :: b :: c :: rest)) ->
  forall l, P l.
Proof.
  intros H0 H1 H2 H3 l.
  assert (H : P l /\ (forall a, P (a :: l)) /\ (forall a b, P (a :: b :: l))).
  { induction l as [| x l (IH0 & IH1 & IH2)]; [auto |].
    split; [apply IH1 |]. split; [intros a; apply IH2 |].
    intros a b. apply H3, IH0. }
  apply H.
Qed.

(** [decode], one group at a time. *)
Lemma decode_four (c0 c1 c2 c3 : ascii) (r : string) :
  decode (String c0 (String c1 (String c2 (String c3 r)))) =
    (d0 ← value c0; d1 ← value c1; b0 ← Byte.of_N (d0 * 4 + d1 / 16);
     if Ascii.eqb c2 "=" then
       if Ascii.eqb c3 "=" && String.eqb r "" then Some [b0] else None
     else
       d2 ← value c2; b1 ← Byte.of_N ((d1 mod 16) * 16 + d2 / 4);
       if Ascii.eqb c3 "=" then
         if String.eqb r "" then Some [b0; b1] else None
       else
         d3 ← value c3; b2 ← Byte.of_N ((d2 mod 4) * 64 + d3);
         more ← decode r; Some (b0 :: b1 :: b2 :: more)).
Proof. reflexivity. Qed.

Lemma encode_one (b0 : Byte.byte) :
  encode [b0] =
    String (digit (N.shiftr (group b0 Byte.x00 Byte.x00) 18))
      (String (digit (N.shiftr (group b0 Byte.x00 Byte.x00) 12)) "==").
Proof. reflexivity. Qed.

Lemma encode_two (b0 b1 : Byte.byte) :
  encode [b0; b1] =
    String (digit (N.shiftr (group b0 b1 Byte.x00) 18))
      (String (digit (N.shiftr (group b0 b1 Byte.x00) 12))
         (String (digit (N.shiftr (group b0 b1 Byte.x00) 6)) "=")).
Proof. reflexivity. Qed.

Lemma encode_three (b0 b1 b2 : Byte.byte) (rest : list Byte.byte) :
  encode (b0 :: b1 :: b2 :: rest) =
    String (digit (N.shiftr (group b0 b1 b2) 18))
      (String (digit (N.shiftr (group b0 b1 b2) 12))
         (String (digit (N.shiftr (group b0 b1 b2) 6))
            (String (digit (group b0 b1 b2)) (encode rest)))).
Proof. reflexivity. Qed.

(** X7: decoding the base64 of a buffer gives the buffer back: the inline data
    the relay sends determines the uploaded bytes. *)
Theorem base64_round_trip (bytes : list Byte.byte) :
  decode (encode bytes) = Some bytes.
Proof.
  induction bytes as [| b0 | b0 b1 | b0 b1 b2 rest IH] using list_ind3.
  - reflexivity.
  - destruct (decode_group b0 Byte.x00 Byte.x00) as (H0 & _). cbv zeta in H0.
    rewrite encode_one, decode_four.
    destruct (value_digit (N.shiftr (group b0 Byte.x00 Byte.x00) 18)) as [-> _].
    destruct (value_digit (N.shiftr (group b0 Byte.x00 Byte.x00) 12)) as [-> _].
    cbn [mbind option_bind]. rewrite H0. reflexivity.
  - destruct (decode_group b0 b1 Byte.x00) as (H0 & H1 & _). cbv zeta in H0, H1.
    rewrite encode_two, decode_four.
    destruct (value_digit (N.shiftr (group b0 b1 Byte.x00) 18)) as [-> _].
    destruct (value_digit (N.shiftr (group b0 b1 Byte.x00) 12)) as [-> _].
    destruct (value_digit (N.shiftr (group b0 b1 Byte.x00) 6)) as [-> ->].
    cbn [mbind option_bind]. rewrite H0. cbn [mbind option_bind]. rewrite H1.
    reflexivity.
  - destruct (decode_group b0 b1 b2) as (H0 & H1 & H2). cbv zeta in H0, H1, H2.
    rewrite encode_three, decode_four.
    destruct (value_digit (N.shiftr (group b0 b1 b2) 18)) as [-> _].
    destruct (value_digit (N.shiftr (group b0 b1 b2) 12)) as [-> _].
    destruct (value_digit (N.shiftr (group b0 b1 b2) 6)) as [-> ->].
    destruct (value_digit (group b0 b1 b2)) as [-> ->].
    cbn [mbind option_bind]. rewrite H0. cbn [mbind option_bind]. rewrite H1.
    cbn [mbind option_bind]. rewrite H2. cbn [mbind option_bind]. rewrite IH.
    reflexivity.
Qed.

(** X8: the encoding is four characters for every three bytes or part of. *)
Theorem base64_length (bytes : list Byte.byte) :
  String.length (encode bytes) = 4 * ((length bytes + 2) / 3).
Proof.
  induction bytes as [| b0 | b0 b1 | b0 b1 b2 rest IH] using list_ind3;
    try reflexivity.
  rewrite encode_three. cbn [String.length]. rewrite IH. cbn [length].
  replace (S (S (S (length rest))) + 2) with (1 * 3 + (length rest + 2)) by lia.
  rewrite Nat.div_add_l by lia. lia.
Qed.

End Base64Properties.

(** ** The chat client, operation by operation *)

Section ClientOperations.
Import ChatClient ClientVocabulary.

Variable marked_parse : string -> string.
Variable marked_type_error : JsVal -> string.
Variable image_input_in_form : bool.
Variable document : Document.

Local Abbreviation on_submit := (ChatClient.on_submit image_input_in_form).
Local Abbreviation settle := (ChatClient.settle marked_parse marked_type_error document).
Local Abbreviation tick := (ChatClient.tick document).
Local Abbreviation catch := (ChatClient.catch document).
Local Abbreviation step :=
  (ChatClient.step marked_parse marked_type_error image_input_in_form document).
Local Abbreviation failure_of := (ClientVocabulary.failure_of marked_type_error).

(** X9: an accepted submit: the user's turn is appended to the chat list at
    once, the text field is cleared, the flag is raised, the loading timer
    is set, and one request is issued: multipart if an image is attached,
    JSON otherwise.  History and attachment are left as they are. *)
Theorem submit_accepted (st : State) (text : string) :
  isResponseGenerating st = false ->
  Str.trim (promptInput st) = text ->
  text <> "" \/ is_Some (attachedImageFile st) ->
  let st' := on_submit st in
  prompt st' = Some text /\
  isResponseGenerating st' = true /\
  chatList st' = chatList st ++ [nextElement st] /\
  elements st' !! nextElement st =
    Some (createMessageElement
            (outgoing_html (Some text)
               (match attachedImageFile st with
                | Some file => Some {| url_id := objectUrls st; url_file := file |}
                | None => None
                end)) ["outgoing"]) /\
  promptInput st' = "" /\
  hideHeader st' = true /\
  loadingTimers st' = S (loadingTimers st) /\
  requests st' =
    requests st ++
      [{| userPrompt := Some text;
          sent := match attachedImageFile st with
                  | Some file => FormData text file
                  | None => JsonData (JObj [("prompt", JStr text)])
                  end |}] /\
  chatHistory st' = chatHistory st /\
  attachedImageFile st' = attachedImageFile st /\
  imagePreview st' = imagePreview st.
Proof.
  intros Hflag Htext Hgo st'. subst st'.
  unfold ChatClient.on_submit, handleOutgoingMessage. rewrite Htext. simpl.
  rewrite Hflag, orb_false_r.
  assert (Hguard : negb (negb (String.eqb text "")) &&
                   negb (bool_decide (is_Some (attachedImageFile st))) = false).
  { destruct Hgo as [Hne | Hsome].
    - destruct (String.eqb_spec text ""); [contradiction | reflexivity].
    - rewrite (bool_decide_eq_true_2 _ Hsome). apply andb_false_r. }
  rewrite Hguard. unfold processPrompt, reset_form.
  destruct (attachedImageFile st) as [file |] eqn:Ha; simpl; rewrite ?Ha;
    destruct image_input_in_form; simpl; rewrite ?Ha, ?lookup_insert_eq;
    repeat split.
Qed.

(** *** White space only *)

Lemma trim_start_spaces (s : string) :
  forallb Str.is_space (list_ascii_of_string s) = true -> Str.trim_start s = "".
Proof.
  induction s as [| c rest IH]; simpl; [reflexivity |].
  intros H. apply andb_true_iff in H as [Hc Hrest]. rewrite Hc. apply IH, Hrest.
Qed.

(** X10: a message of white space only is never sent: with no image attached,
    submitting it changes nothing but the variable [prompt]. *)
Theorem blank_message_not_sent (st : State) :
  forallb Str.is_space (list_ascii_of_string (promptInput st)) = true ->
  attachedImageFile st = None ->
  on_submit st = set_prompt (Some "") st.
Proof.
  intros Hblank Ha. unfold ChatClient.on_submit, Str.trim.
  rewrite (trim_start_spaces _ Hblank). simpl Str.trim_end.
  unfold handleOutgoingMessage. simpl. rewrite Ha. reflexivity.
Qed.

(** *** Replies *)

(** X11: a failed exchange (network error, status outside 200-299, a body that
    is not JSON, or a payload without reply text) ends with the flag
    cleared, nothing stored in the history, no typing effect started, and
    an error bubble carrying the message as the last child of the chat
    list. *)
Theorem failed_reply_shows_error (st : State) (i : nat) (request : Pending)
    (settled : FetchResult) (e : string) :
  requests st !! i = Some request ->
  failure_of settled = Some e ->
  let st' := settle i settled st in
  isResponseGenerating st' = false /\
  chatHistory st' = chatHistory st /\
  requests st' = delete i (requests st) /\
  intervals st' = intervals st /\
  last (chatList st') = Some (nextElement st) /\
  elements st' !! nextElement st = Some (error_bubble e) /\
  attachedImageFile st' = attachedImageFile st.
Proof.
  intros Hreq Hfail st'. subst st'.
  unfold ChatClient.settle. rewrite Hreq. unfold ClientVocabulary.failure_of in Hfail.
  destruct (first_then settled) as [e' | data].
  - injection Hfail as ->. unfold ChatClient.catch, remove_loading, update. simpl.
    look; rewrite last_snoc, !lookup_alter_eq, lookup_insert_eq; repeat split.
  - unfold second_then, decorate, remove_loading.
    destruct (truthy (reply_text data)); simpl in Hfail |- *.
    + destruct (reply_text data); try discriminate Hfail; injection Hfail as <-;
        unfold ChatClient.catch, remove_loading, update; simpl; look;
        rewrite last_snoc, !lookup_alter_eq, lookup_insert_eq; repeat split.
    + injection Hfail as <-. unfold ChatClient.catch, remove_loading, update. simpl.
      look; rewrite last_snoc, !lookup_alter_eq, lookup_insert_eq; repeat split.
Qed.

(** A status outside 200-299 is reported as "Server error: <status>". *)
Lemma failure_of_status (r : Response) :
  ok r = false ->
  failure_of (Resolved r) = Some ("Server error: " +:+ status_text r).
Proof. intros Hok. unfold ClientVocabulary.failure_of, first_then. rewrite Hok. reflexivity. Qed.

(** Removing the loading message keeps every other message of the list. *)
Lemma remove_first_loading_keeps (els : gmap nat Message) (children : list nat) (id : nat) :
  id ∈ children -> is_loading els id = false -> id ∈ remove_first_loading els children.
Proof.
  induction children as [| x rest IH]; simpl; intros Hin Hl; [inversion Hin |].
  destruct (is_loading els x) eqn:Hx.
  - apply elem_of_cons in Hin as [-> | Hin]; [congruence | exact Hin].
  - apply elem_of_cons in Hin as [-> | Hin]; [left | right; apply IH; assumption].
Qed.

(** X12: a successful reply that arrives while an image is attached is written
    into a new incoming message at once, without the typing effect, and the
    flag ends cleared.  What follows depends on the decoration of the page,
    the second whole-document operation of the callback.  When it returns,
    the reply is the last child of the chat list, the exchange is stored
    with a new object URL of the attached image, and the pending attachment
    and its preview are cleared.  When it throws, [.catch] takes over:
    nothing is stored, the image stays attached and previewed, and an error
    bubble carrying the message follows the reply. *)
Theorem image_reply_rendered_at_once (st : State) (i : nat) (request : Pending)
    (settled : FetchResult) (data : JsVal) (T : string) (file : File) :
  requests st !! i = Some request ->
  first_then settled = inr data ->
  reply_text data = JStr T -> T <> "" ->
  attachedImageFile st = Some file ->
  let st' := settle i settled st in
  (exists m, elements st' !! nextElement st = Some m /\
             text m = Html (marked_parse T) /\ copy_icon m = Some false) /\
  nextElement st ∈ chatList st' /\
  isResponseGenerating st' = false /\
  intervals st' = intervals st /\
  requests st' = delete i (requests st) /\
  match decoration_error document (S (lookups st)) with
  | None =>
      last (chatList st') = Some (nextElement st) /\
      chatHistory st' =
        chatHistory st ++ [{| userMessage := userPrompt request; apiResponse := data;
                              imageUrl := Some {| url_id := objectUrls st;
                                                  url_file := file |} |}] /\
      attachedImageFile st' = None /\ imagePreview st' = [] /\ imageInput st' = []
  | Some e =>
      last (chatList st') = Some (S (nextElement st)) /\
      elements st' !! S (nextElement st) = Some (error_bubble e) /\
      chatHistory st' = chatHistory st /\
      attachedImageFile st' = Some file /\ imagePreview st' = imagePreview st
  end.
Proof.
  intros Hreq Hfirst Htext HT Ha st'. subst st'.
  unfold ChatClient.settle. rewrite Hreq, Hfirst.
  unfold second_then, decorate, remove_loading. rewrite Htext.
  replace (truthy (JStr T)) with true
    by (simpl; destruct (String.eqb_spec T ""); [contradiction | reflexivity]).
  simpl.
  destruct (loading_elsewhere document (lookups st)); simpl; rewrite Ha; simpl;
    (destruct (decoration_error document (S (lookups st))) as [e |]; simpl;
     [unfold ChatClient.catch, remove_loading, update; simpl;
      destruct (loading_elsewhere document (S (S (lookups st)))); simpl
     | rewrite Ha; unfold update; simpl]);
    rewrite ?last_snoc, ?lookup_alter_ne, ?lookup_insert_ne by lia;
    rewrite ?lookup_alter_eq, ?lookup_insert_eq;
    (split; [eexists; split; [reflexivity | split; reflexivity] |]);
    (split;
       [first [ solve [set_solver]
              | apply elem_of_app; left; apply remove_first_loading_keeps;
                [set_solver
                | unfold is_loading; rewrite lookup_alter_eq, lookup_insert_eq; reflexivity] ]
       |]);
    repeat split; exact Ha.
Qed.

Lemma handleOutgoingMessage_history (st : State) :
  chatHistory (handleOutgoingMessage image_input_in_form st) = chatHistory st.
Proof.
  unfold handleOutgoingMessage, processPrompt, reset_form.
  destruct (_ || _); [reflexivity |].
  destruct (attachedImageFile st) eqn:Ha; simpl; rewrite ?Ha;
    destruct image_input_in_form; simpl; rewrite ?Ha; reflexivity.
Qed.

(** X13: the history only grows, one exchange at a time and only when a request
    settles; nothing but the confirmed "delete chat" ever removes from it. *)
Theorem history_append_only (ev : Event) (st : State) :
  is_clear ev = false ->
  chatHistory (step ev st) = chatHistory st \/
  exists i settled request data,
    ev = Settle i settled /\ requests st !! i = Some request /\
    first_then settled = inr data /\
    exists image,
      chatHistory (step ev st) =
        chatHistory st ++ [{| userMessage := userPrompt request; apiResponse := data;
                              imageUrl := image |}].
Proof.
  intros Hclear.
  destruct ev as [value | | text | files | | | i settled | interval | confirmed]; simpl.
  - left. reflexivity.
  - left. unfold ChatClient.on_submit. rewrite handleOutgoingMessage_history. reflexivity.
  - left. unfold on_suggestion. rewrite handleOutgoingMessage_history. reflexivity.
  - left. destruct files; reflexivity.
  - left. destruct (imagePreview st); reflexivity.
  - left. destruct (loadingTimers st); reflexivity.
  - unfold ChatClient.settle.
    destruct (requests st !! i) as [request |] eqn:Hreq; [| left; reflexivity].
    destruct (first_then settled) as [e | data] eqn:Hfirst; [left; rewrite catch_history; reflexivity |].
    unfold second_then, decorate, remove_loading. simpl.
    destruct (truthy (reply_text data)); simpl;
      [| left; unfold remove_loading; simpl; look; reflexivity].
    destruct (reply_text data); simpl;
      try (left; unfold remove_loading; simpl; look; reflexivity).
    destruct (loading_elsewhere document (lookups st)); simpl;
      (destruct (attachedImageFile st) eqn:Ha; simpl; rewrite ?Ha; simpl;
       [destruct (decoration_error document (S (lookups st))); simpl;
        [left; unfold remove_loading; simpl; look; reflexivity |] |]);
      rewrite ?Ha; simpl;
      right; exists i, settled, request, data;
      (split; [reflexivity |]); (split; [exact Hreq |]); (split; [exact Hfirst |]);
      eexists; reflexivity.
  - left. unfold ChatClient.tick, finish_if_done, decorate, reveal_word.
    destruct (intervals st !! interval) as [t |] eqn:Hi; simpl.
    + rewrite lookup_insert_eq. simpl. branch; reflexivity.
    + rewrite Hi. reflexivity.
  - destruct confirmed; [discriminate Hclear | left; reflexivity].
Qed.

(** *** One piece of work at a time *)

(** What [handleOutgoingMessage] does to the work in progress. *)
Lemma handleOutgoingMessage_work (st : State) :
  handleOutgoingMessage image_input_in_form st = st \/
  (isResponseGenerating st = false /\
   isResponseGenerating (handleOutgoingMessage image_input_in_form st) = true /\
   (exists body,
      requests (handleOutgoingMessage image_input_in_form st) =
        requests st ++ [{| userPrompt := prompt st; sent := body |}]) /\
   intervals (handleOutgoingMessage image_input_in_form st) = intervals st).
Proof.
  unfold handleOutgoingMessage, processPrompt, reset_form.
  destruct (isResponseGenerating st) eqn:Hflag; [left; rewrite orb_true_r; reflexivity |].
  rewrite orb_false_r. destruct (_ && _); [left; reflexivity |]. right.
  split; [reflexivity |].
  destruct (attachedImageFile st) eqn:Ha; simpl; rewrite ?Ha;
    destruct image_input_in_form; simpl; rewrite ?Ha;
    (split; [reflexivity | split; [eexists; reflexivity | reflexivity]]).
Qed.

(** What a settling request does to the work in progress. *)
Lemma settle_work (i : nat) (settled : FetchResult) (st : State) (request : Pending) :
  requests st !! i = Some request ->
  requests (settle i settled st) = delete i (requests st) /\
  ((isResponseGenerating (settle i settled st) = false /\
    intervals (settle i settled st) = intervals st) \/
   (isResponseGenerating (settle i settled st) = isResponseGenerating st /\
    exists T,
      intervals (settle i settled st) =
        <[nextInterval st := {| words := Str.split T; currWordIndex := 0;
                                incomingMessageDiv := nextElement st;
                                parsedText := marked_parse T |}]> (intervals st))).
Proof.
  intros Hreq. unfold ChatClient.settle. rewrite Hreq.
  destruct (first_then settled) as [e | data];
    [unfold ChatClient.catch, remove_loading; simpl; look;
     (split; [reflexivity | left; split; reflexivity]) |].
  unfold second_then, decorate, remove_loading. simpl.
  destruct (truthy (reply_text data)); simpl;
    [| unfold remove_loading; simpl; look;
       (split; [reflexivity | left; split; reflexivity])].
  destruct (reply_text data) as [| | | | T | |]; simpl;
    try (unfold remove_loading; simpl; look;
         (split; [reflexivity | left; split; reflexivity])).
  destruct (loading_elsewhere document (lookups st)); simpl;
    (destruct (attachedImageFile st) eqn:Ha; simpl; rewrite ?Ha; simpl; rewrite ?Ha;
     [destruct (decoration_error document (S (lookups st))); simpl; rewrite ?Ha;
      unfold remove_loading; simpl; look;
      (split; [reflexivity | left; split; reflexivity])
     | split; [reflexivity | right; split; [reflexivity | exists T; reflexivity]]]).
Qed.

Lemma tick_work (interval : nat) (t : Typing) (st : State) :
  intervals st = {[interval := t]} -> currWordIndex t < length (words t) ->
  requests (tick interval st) = requests st /\
  ((isResponseGenerating (tick interval st) = false /\ intervals (tick interval st) = ∅) \/
   (isResponseGenerating (tick interval st) = isResponseGenerating st /\
    exists t', intervals (tick interval st) = {[interval := t']} /\
               currWordIndex t' < length (words t'))).
Proof.
  intros Hi Hlt. unfold ChatClient.tick, finish_if_done, decorate, reveal_word.
  rewrite Hi, lookup_singleton_eq. simpl. rewrite lookup_insert_eq.
  cbn [currWordIndex words incomingMessageDiv parsedText].
  destruct (Nat.eqb_spec (S (currWordIndex t)) (length (words t))) as [Heq | Hne]; simpl.
  - look; (split; [reflexivity |]); left; (split; [reflexivity |]);
      rewrite Hi, insert_singleton_eq; apply delete_singleton_eq.
  - split; [reflexivity |]. right. split; [reflexivity |].
    eexists. split; [rewrite Hi; apply insert_singleton_eq |]. simpl. lia.
Qed.

Lemma step_one_at_a_time (ev : Event) (st : State) :
  is_clear ev = false -> one_at_a_time st -> one_at_a_time (step ev st).
Proof.
  intros Hclear H.
  destruct ev as [value | | text | files | | | i settled | interval | confirmed]; simpl.
  - exact H.
  - unfold ChatClient.on_submit.
    set (entered := set_prompt _ st).
    assert (He : one_at_a_time entered) by exact H.
    destruct (handleOutgoingMessage_work entered) as [-> | (Hf & Hf' & (body & Hr) & Hi)];
      [exact He |].
    destruct He as [(_ & Hr0 & Hi0) | [(Hf0 & _) | (Hf0 & _)]]; try congruence.
    right. left. split; [exact Hf' |]. rewrite Hr, Hr0, Hi, Hi0.
    split; [eexists; reflexivity | reflexivity].
  - unfold on_suggestion.
    set (entered := set_prompt _ st).
    assert (He : one_at_a_time entered) by exact H.
    destruct (handleOutgoingMessage_work entered) as [-> | (Hf & Hf' & (body & Hr) & Hi)];
      [exact He |].
    destruct He as [(_ & Hr0 & Hi0) | [(Hf0 & _) | (Hf0 & _)]]; try congruence.
    right. left. split; [exact Hf' |]. rewrite Hr, Hr0, Hi, Hi0.
    split; [eexists; reflexivity | reflexivity].
  - destruct files; exact H.
  - destruct (imagePreview st); exact H.
  - destruct (loadingTimers st); exact H.
  - destruct (requests st !! i) as [request |] eqn:Hreq.
    2:{ unfold ChatClient.settle. rewrite Hreq. exact H. }
    destruct (settle_work i settled st request Hreq) as [Hr Hcase].
    destruct H as [(_ & Hr0 & _) | [(Hf & (p & Hr0) & Hi0) | (_ & Hr0 & _)]];
      try (rewrite Hr0 in Hreq; discriminate Hreq).
    assert (Hempty : requests (settle i settled st) = []).
    { rewrite Hr. rewrite Hr0 in Hreq |- *.
      destruct i; [reflexivity | simpl in Hreq; discriminate Hreq]. }
    destruct Hcase as [(Hf' & Hi) | (Hf' & T & Hi)].
    + left. rewrite Hi, Hi0. repeat split; assumption.
    + right. right. split; [congruence |]. split; [exact Hempty |].
      eexists _, _. rewrite Hi, Hi0, insert_empty. split; [reflexivity |].
      simpl. apply split_length.
  - destruct H as [(Hf & Hr & Hi) | [(Hf & Hr & Hi) | (Hf & Hr & (id & t & Hi & Hlt))]].
    + rewrite tick_stopped by (rewrite Hi; apply lookup_empty).
      left. repeat split; assumption.
    + rewrite tick_stopped by (rewrite Hi; apply lookup_empty).
      right. left. repeat split; assumption.
    + destruct (decide (interval = id)) as [-> | Hne].
      * destruct (tick_work id t st Hi Hlt) as [Hr' [(Hf' & Hi') | (Hf' & t' & Hi' & Hlt')]].
        -- left. rewrite Hr', Hr. repeat split; assumption.
        -- right. right. rewrite Hr', Hr, Hf', Hf.
           split; [reflexivity |]. split; [reflexivity |]. eauto.
      * rewrite tick_stopped by (rewrite Hi; apply lookup_singleton_ne; congruence).
        right. right. split; [exact Hf |]. split; [exact Hr |]. eauto.
  - destruct confirmed; [discriminate Hclear | exact H].
Qed.

(** X14: as long as the history is not cleared, the client has at most one piece
    of work in progress (one request awaiting its reply, or one typing
    effect, which always has a word left to reveal), and the flag
    [isResponseGenerating] is set exactly while it has one. *)
Theorem one_request_at_a_time (evs : list Event) :
  Forall (fun ev => is_clear ev = false) evs ->
  one_at_a_time (ChatClient.run marked_parse marked_type_error image_input_in_form document evs init).
Proof.
  assert (Hgen : forall st, one_at_a_time st ->
            Forall (fun ev => is_clear ev = false) evs ->
            one_at_a_time
              (ChatClient.run marked_parse marked_type_error image_input_in_form document evs st)).
  { induction evs as [| ev evs IH]; intros st Hst Hevs; [exact Hst |].
    inversion Hevs as [| ? ? Hev Hrest]; subst. simpl.
    apply IH; [apply step_one_at_a_time; assumption | exact Hrest]. }
  apply Hgen. left. repeat split.
Qed.

(** X15: clearing the history empties the chat list, the history and the pending
    attachment and lowers the flag, but cancels nothing: requests and
    typing effects stay.  A reply that arrives afterwards is shown and
    stored as the only exchange. *)
Theorem late_reply_after_clear (st : State) (i : nat) (request : Pending)
    (settled : FetchResult) (data : JsVal) (T : string) :
  requests st !! i = Some request ->
  first_then settled = inr data ->
  reply_text data = JStr T -> T <> "" ->
  let cleared := on_delete_chat true st in
  chatList cleared = [] /\ chatHistory cleared = [] /\
  attachedImageFile cleared = None /\ imagePreview cleared = [] /\
  prompt cleared = None /\ isResponseGenerating cleared = false /\
  requests cleared = requests st /\ intervals cleared = intervals st /\
  loadingTimers cleared = loadingTimers st /\
  chatList (settle i settled cleared) = [nextElement st] /\
  chatHistory (settle i settled cleared) =
    [{| userMessage := userPrompt request; apiResponse := data; imageUrl := None |}].
Proof.
  intros Hreq Hfirst Htext HT cleared.
  repeat (split; [reflexivity |]).
  subst cleared. unfold ChatClient.settle. simpl requests. rewrite Hreq, Hfirst.
  unfold second_then, decorate, remove_loading. rewrite Htext.
  replace (truthy (JStr T)) with true
    by (simpl; destruct (String.eqb_spec T ""); [contradiction | reflexivity]).
  simpl. look; split; reflexivity.
Qed.

(** *** The loading indicator *)

Lemma remove_first_loading_spec (els : gmap nat Message) (children : list nat) :
  (Forall (not_loading els) children /\ remove_first_loading els children = children) \/
  (exists before id after,
     children = before ++ id :: after /\
     Forall (not_loading els) before /\
     is_loading els id = true /\
     remove_first_loading els children = before ++ after).
Proof.
  induction children as [| id rest IH]; simpl.
  - left. split; [constructor | reflexivity].
  - destruct (is_loading els id) eqn:Hl.
    + right. exists [], id, rest. repeat split; [constructor | exact Hl].
    + destruct IH as [[Hall Heq] | (before & id' & after & Heq & Hall & Hl' & Hres)].
      * left. split; [constructor; assumption | rewrite Heq; reflexivity].
      * right. exists (id :: before), id', after.
        split; [rewrite Heq; reflexivity |].
        split; [constructor; assumption |].
        split; [exact Hl' | rewrite Hres; reflexivity].
Qed.

(** X16: removing the loading indicator removes one element of the document
    at most and rewrites no message.  When the first element of class
    "loading" in the document is not a child of the chat list, the chat
    list is left as it is, a loading message included.  Otherwise the first
    child of the chat list that carries the class is taken out and nothing
    else; without such a child the list is left as it is. *)
Theorem remove_loading_first_only (st : State) :
  elements (remove_loading document st) = elements st /\
  ((loading_elsewhere document (lookups st) = true /\
    chatList (remove_loading document st) = chatList st) \/
   (loading_elsewhere document (lookups st) = false /\
    Forall (not_loading (elements st)) (chatList st) /\
    chatList (remove_loading document st) = chatList st) \/
   (loading_elsewhere document (lookups st) = false /\
    exists before id after,
      chatList st = before ++ id :: after /\
      Forall (not_loading (elements st)) before /\
      is_loading (elements st) id = true /\
      chatList (remove_loading document st) = before ++ after)).
Proof.
  unfold remove_loading.
  destruct (loading_elsewhere document (lookups st)); simpl.
  - split; [reflexivity |]. left. split; reflexivity.
  - split; [reflexivity |]. right.
    destruct (remove_first_loading_spec (elements st) (chatList st))
      as [[Hall Heq] | Hfound].
    + left. split; [reflexivity |]. split; assumption.
    + right. split; [reflexivity | exact Hfound].
Qed.

(** *** Reading the reply *)

Lemma opt_prop_get (v : JsVal) (name : string) : opt_prop v name = get_prop v name.
Proof. destruct v; reflexivity. Qed.

(** X17: only the text of the first part of the first candidate is read; further
    candidates and parts are ignored; a payload with no candidate at all has
    no reply text. *)
Theorem reply_text_first_candidate (data : JsVal) :
  (forall candidate others content part parts,
     get_prop data "candidates" = JArr (candidate :: others) ->
     get_prop candidate "content" = content ->
     get_prop content "parts" = JArr (part :: parts) ->
     reply_text data = get_prop part "text") /\
  (get_prop data "candidates" = JUndefined \/ get_prop data "candidates" = JArr [] ->
   reply_text data = JUndefined).
Proof.
  unfold reply_text. rewrite !opt_prop_get. split.
  - intros candidate others content part parts H1 H2 H3.
    rewrite H1. cbn [opt_first]. rewrite H2, H3. reflexivity.
  - intros [-> | ->]; reflexivity.
Qed.

(** *** The revealed text *)

Lemma split_not_nil (s : string) : Str.split s <> [].
Proof. pose proof (split_length s). destruct (Str.split s); [simpl in *; lia | discriminate]. Qed.

(** Joining the pieces of [split(" ")] with single spaces gives the text
    back. *)
Lemma split_join (s : string) : String.concat " " (Str.split s) = s.
Proof.
  induction s as [| c rest IH]; [reflexivity |].
  pose proof (split_not_nil rest) as Hne. simpl.
  destruct (Ascii.eqb_spec c " ") as [-> | Hc].
  - destruct (Str.split rest) as [| w ws]; [contradiction |].
    change (String.concat " " ("" :: w :: ws)) with (" " +:+ String.concat " " (w :: ws)).
    rewrite IH. reflexivity.
  - destruct (Str.split rest) as [| w ws]; [contradiction |].
    destruct ws as [| w' ws]; simpl in *; rewrite <- IH; reflexivity.
Qed.

Lemma concat_spaced (ws : list string) (f : nat -> string -> string) :
  (forall i w, f i w = " " +:+ w) ->
  forall w, String.concat "" (w :: imap f ws) = String.concat " " (w :: ws).
Proof.
  intros Hf. revert f Hf. induction ws as [| w' ws IH]; intros f Hf w; [reflexivity |].
  change (imap f (w' :: ws)) with (f 0 w' :: imap (f ∘ S) ws).
  change (String.concat "" (w :: f 0 w' :: imap (f ∘ S) ws))
    with (w +:+ "" +:+ String.concat "" (f 0 w' :: imap (f ∘ S) ws)).
  change (String.concat " " (w :: w' :: ws))
    with (w +:+ " " +:+ String.concat " " (w' :: ws)).
  rewrite <- (IH (f ∘ S)) by (intros i x; apply Hf).
  rewrite Hf. simpl. f_equal.
  destruct (imap (f ∘ S) ws); simpl; reflexivity.
Qed.

(** X18: the tokens the typing effect appends, put end to end, spell the reply
    text exactly. *)
Theorem tokens_spell_text (T : string) :
  String.concat "" (tokens (Str.split T)) = T.
Proof.
  rewrite <- (split_join T) at 2. pose proof (split_not_nil T) as Hne.
  destruct (Str.split T) as [| w ws]; [contradiction |].
  unfold tokens. change (imap ?f (w :: ws)) with (f 0 w :: imap (f ∘ S) ws).
  simpl ((if (0 =? 0)%nat then "" else " ") +:+ w).
  apply concat_spaced. intros i x. reflexivity.
Qed.

End ClientOperations.

(** ** The stored history *)

Section ClientHistory.
Import ChatClient ClientVocabulary.

Variable marked_parse : string -> string.
Variable marked_type_error : JsVal -> string.
Variable image_input_in_form : bool.
Variable document : Document.

Local Abbreviation settle := (ChatClient.settle marked_parse marked_type_error document).
Local Abbreviation tick := (ChatClient.tick document).
Local Abbreviation catch := (ChatClient.catch document).
Local Abbreviation step :=
  (ChatClient.step marked_parse marked_type_error image_input_in_form document).
Local Abbreviation reachable :=
  (ChatClient.reachable marked_parse marked_type_error image_input_in_form document).
Local Abbreviation displayChatHistory :=
  (ClientVocabulary.displayChatHistory marked_parse marked_type_error document).
Local Abbreviation display_all :=
  (ClientVocabulary.display_all marked_parse marked_type_error document).

(** What a settling request stores. *)
Lemma settle_history (i : nat) (settled : FetchResult) (st : State) :
  chatHistory (settle i settled st) = chatHistory st \/
  exists request data T image,
    requests st !! i = Some request /\ reply_text data = JStr T /\ T <> "" /\
    chatHistory (settle i settled st) =
      chatHistory st ++ [{| userMessage := userPrompt request; apiResponse := data;
                            imageUrl := image |}].
Proof.
  unfold ChatClient.settle.
  destruct (requests st !! i) as [request |] eqn:Hreq; [| left; reflexivity].
  destruct (first_then settled) as [e | data];
    [left; rewrite catch_history; reflexivity |].
  unfold second_then, decorate, remove_loading. simpl.
  destruct (truthy (reply_text data)) eqn:Ht; simpl;
    [| left; unfold remove_loading; simpl; look; reflexivity].
  destruct (reply_text data) as [| | | | T | |] eqn:Htext; simpl;
    try (left; unfold remove_loading; simpl; look; reflexivity).
  assert (HT : T <> "") by (intros ->; discriminate Ht).
  destruct (loading_elsewhere document (lookups st)); simpl;
    (destruct (attachedImageFile st) eqn:Ha; simpl; rewrite ?Ha; simpl;
     [destruct (decoration_error document (S (lookups st))); simpl;
      [left; unfold remove_loading; simpl; look; reflexivity |] |]);
    rewrite ?Ha; simpl;
    right; exists request, data, T; eexists;
    (split; [reflexivity | split; [exact Htext | split; [exact HT | reflexivity]]]).
Qed.

Lemma settle_requests (i : nat) (settled : FetchResult) (st : State) :
  requests (settle i settled st) = delete i (requests st).
Proof.
  destruct (requests st !! i) as [request |] eqn:Hreq.
  - apply (settle_work marked_parse marked_type_error document i settled st request Hreq).
  - unfold ChatClient.settle. rewrite Hreq. symmetry.
    apply lookup_ge_None in Hreq.
    rewrite delete_take_drop, (take_ge _ i), (drop_ge _ (S i)) by lia.
    apply app_nil_r.
Qed.

Lemma tick_stores_nothing (interval : nat) (st : State) :
  chatHistory (tick interval st) = chatHistory st /\
  requests (tick interval st) = requests st.
Proof.
  unfold ChatClient.tick, finish_if_done, decorate, reveal_word.
  destruct (intervals st !! interval) as [t |] eqn:Hi; simpl.
  - rewrite lookup_insert_eq. simpl. branch; split; reflexivity.
  - rewrite Hi. split; reflexivity.
Qed.

Lemma step_history_ok (ev : Event) (st : State) :
  history_ok st -> history_ok (step ev st).
Proof.
  intros [Hh Hr].
  destruct ev as [value | | text | files | | | i settled | interval | confirmed]; simpl.
  - split; assumption.
  - unfold ChatClient.on_submit. set (entered := set_prompt _ st).
    split; [rewrite handleOutgoingMessage_history; exact Hh |].
    destruct (handleOutgoingMessage_work image_input_in_form entered)
      as [-> | (_ & _ & (body & ->) & _)]; [exact Hr |].
    apply Forall_app_2; [exact Hr |]. constructor; [| constructor].
    unfold well_sent. simpl. eauto.
  - unfold on_suggestion. set (entered := set_prompt _ st).
    split; [rewrite handleOutgoingMessage_history; exact Hh |].
    destruct (handleOutgoingMessage_work image_input_in_form entered)
      as [-> | (_ & _ & (body & ->) & _)]; [exact Hr |].
    apply Forall_app_2; [exact Hr |]. constructor; [| constructor].
    unfold well_sent. simpl. eauto.
  - destruct files; split; assumption.
  - destruct (imagePreview st); split; assumption.
  - destruct (loadingTimers st); split; assumption.
  - split; [| rewrite settle_requests; apply Forall_delete, Hr].
    destruct (settle_history i settled st)
      as [-> | (request & data & T & image & Hreq & Htext & HT & ->)]; [exact Hh |].
    apply Forall_app_2; [exact Hh |]. constructor; [| constructor].
    split; simpl; [| eauto].
    apply (proj1 (Forall_lookup _ _) Hr i request Hreq).
  - unfold history_ok. destruct (tick_stores_nothing interval st) as [-> ->].
    split; assumption.
  - destruct confirmed; split; try assumption. constructor.
Qed.

Lemma reachable_history_ok (st : State) : reachable st -> history_ok st.
Proof.
  induction 1 as [| ev st _ IH]; [split; constructor | apply step_history_ok, IH].
Qed.

(** X19: every exchange the client ever stores has the prompt the user sent (a
    string, never null) and a payload whose reply text is a non-empty
    string; every outstanding request carries its prompt. *)
Theorem history_well_stored (st : State) :
  reachable st ->
  Forall well_stored (chatHistory st) /\ Forall well_sent (requests st).
Proof.
  induction 1 as [| ev st _ IH].
  - split; constructor.
  - apply step_history_ok, IH.
Qed.

(** *** [displayChatHistory] *)

Lemma display_all_outcome (chats : list Exchange) (st : State) :
  Forall well_stored chats ->
  (exists st',
     display_all chats st = Done st' /\
     (forall j, j < length chats -> decoration_error document (lookups st + j) = None) /\
     length (chatList st') = length (chatList st) + 2 * length chats /\
     chatHistory st' = chatHistory st /\ hideHeader st' = hideHeader st) \/
  (exists st' k e,
     display_all chats st = Threw st' e /\
     k < length chats /\
     decoration_error document (lookups st + k) = Some e /\
     (forall j, j < k -> decoration_error document (lookups st + j) = None) /\
     length (chatList st') = length (chatList st) + 2 * S k /\
     chatHistory st' = chatHistory st /\ hideHeader st' = hideHeader st).
Proof.
  intros Hall. revert st. induction Hall as [| chat chats Hchat _ IH]; intros st.
  - left. exists st. split; [reflexivity |]. split; [simpl; lia |].
    split; [simpl; lia | split; reflexivity].
  - destruct Hchat as [_ (T & HT & Htext)].
    simpl. unfold display_exchange. rewrite Htext. unfold js_or.
    replace (truthy (JStr T)) with true
      by (simpl; destruct (String.eqb_spec T ""); [contradiction | reflexivity]).
    simpl. unfold decorate. simpl.
    destruct (decoration_error document (lookups st)) as [e |] eqn:He.
    + right. eexists _, 0, e. split; [reflexivity |]. split; [lia |].
      split; [rewrite Nat.add_0_r; exact He |]. split; [lia |].
      simpl. rewrite !length_app. simpl. split; [lia | split; reflexivity].
    + match goal with |- context [display_all chats ?s] =>
        destruct (IH s) as [(st' & Hd & Hnone & Hl & Hh & Hhide)
                           | (st' & k & e & Hd & Hk & He' & Hnone & Hl & Hh & Hhide)]
      end; simpl in *.
      * left. exists st'. split; [exact Hd |]. split.
        { intros [| j] Hj; [rewrite Nat.add_0_r; exact He |].
          replace (lookups st + S j) with (S (lookups st + j)) by lia.
          apply Hnone. lia. }
        rewrite Hl, !length_app. simpl. split; [lia | split; assumption].
      * right. exists st', (S k), e. split; [exact Hd |]. split; [lia |].
        split; [replace (lookups st + S k) with (S (lookups st + k)) by lia; exact He' |].
        split.
        { intros [| j] Hj; [rewrite Nat.add_0_r; exact He |].
          replace (lookups st + S j) with (S (lookups st + j)) by lia.
          apply Hnone. lia. }
        rewrite Hl, !length_app. simpl. split; [lia | split; assumption].
Qed.

(** X20: in every reachable state no stored reply would make [marked.parse]
    throw in [displayChatHistory]: what it does is settled by the
    decoration of the page, run once per exchange.  When none of these
    throws, it runs to its end and rebuilds the chat list with two messages
    per stored exchange, hiding the header exactly when there is an
    exchange.  When the one after exchange number k is the first to throw,
    it stops there with that error: the list holds the messages of the
    first k + 1 exchanges and the header is left as it was. *)
Theorem displayChatHistory_rebuilds (st : State) :
  reachable st ->
  (exists st',
     displayChatHistory st = Done st' /\
     (forall j, j < length (chatHistory st) ->
        decoration_error document (lookups st + j) = None) /\
     length (chatList st') = 2 * length (chatHistory st) /\
     chatHistory st' = chatHistory st /\
     hideHeader st' = (0 <? length (chatHistory st))%nat) \/
  (exists st' k e,
     displayChatHistory st = Threw st' e /\
     k < length (chatHistory st) /\
     decoration_error document (lookups st + k) = Some e /\
     (forall j, j < k -> decoration_error document (lookups st + j) = None) /\
     length (chatList st') = 2 * S k /\
     chatHistory st' = chatHistory st /\
     hideHeader st' = hideHeader st).
Proof.
  intros Hr. destruct (reachable_history_ok st Hr) as [Hh _].
  unfold ClientVocabulary.displayChatHistory.
  destruct (display_all_outcome (chatHistory st) (set_chatList [] st) Hh)
    as [(st' & -> & Hnone & Hl & Hc & _) | (st' & k & e & -> & Hk & He & Hnone & Hl & Hc & Hhide)];
    simpl in *.
  - left. eexists. split; [reflexivity |]. split; [exact Hnone |]. simpl. rewrite Hc.
    split; [exact Hl |]. split; reflexivity.
  - right. exists st', k, e. split; [reflexivity |]. split; [exact Hk |].
    split; [exact He |]. split; [exact Hnone |]. split; [exact Hl |].
    split; assumption.
Qed.

End ClientHistory.

(** ** From the browser to the relay *)

Section EndToEnd.
Import ChatClient Wire.

Variable upload : File -> Relay.UploadedFile.
Variable page_origin : option string.
Variable image_input_in_form : bool.

Local Abbreviation on_submit := (ChatClient.on_submit image_input_in_form).
Local Abbreviation delivered := (Wire.delivered upload page_origin).

Lemma valid_not_missing (env : Relay.Env) (up : Relay.Upstream) (req : Relay.Request) :
  Relay.method req = "POST" -> Relay.valid_input req = true ->
  Relay.reply (Relay.generate env up req) <> Some Relay.missing_input.
Proof.
  intros Hm Hv. rewrite generate_post by exact Hm. unfold Relay.run.
  destruct (gemini_cases env up req)
    as [[Hv' _] | [(_ & _ & ->) | (key & r & _ & _ & _ & -> & Hr)]].
  - congruence.
  - discriminate.
  - simpl. intros Heq. destruct (RelayReplies.upstream_exception _ _).
    + subst r. discriminate Heq.
    + destruct Hr as (resp & B & _ & _ & ->). destruct (ok resp); discriminate Heq.
Qed.

Lemma accepted_request (st : State) (text : string) :
  isResponseGenerating st = false ->
  Str.trim (promptInput st) = text ->
  text <> "" \/ is_Some (attachedImageFile st) ->
  requests (on_submit st) =
    requests st ++
      [{| userPrompt := Some text;
          sent := match attachedImageFile st with
                  | Some file => FormData text file
                  | None => JsonData (JObj [("prompt", JStr text)])
                  end |}].
Proof.
  intros Hflag Htext Hgo.
  unfold ChatClient.on_submit, handleOutgoingMessage. rewrite Htext. simpl.
  rewrite Hflag, orb_false_r.
  assert (Hguard : negb (negb (String.eqb text "")) &&
                   negb (bool_decide (is_Some (attachedImageFile st))) = false).
  { destruct Hgo as [Hne | Hsome].
    - destruct (String.eqb_spec text ""); [contradiction | reflexivity].
    - rewrite (bool_decide_eq_true_2 _ Hsome). apply andb_false_r. }
  rewrite Hguard. unfold processPrompt, reset_form.
  destruct (attachedImageFile st) as [file |] eqn:Ha; simpl; rewrite ?Ha;
    destruct image_input_in_form; simpl; rewrite ?Ha; reflexivity.
Qed.

(** X21: whatever an accepted submit sends passes the relay's input validation,
    so the client never draws the "missing input" error; and the text the
    relay forwards upstream is the trimmed text the user typed, or the
    default description prompt when an image is sent without text. *)
Theorem accepted_submit_is_valid_for_relay (st : State) (text : string) :
  isResponseGenerating st = false ->
  Str.trim (promptInput st) = text ->
  text <> "" \/ is_Some (attachedImageFile st) ->
  exists request,
    requests (on_submit st) = requests st ++ [request] /\
    Relay.method (delivered (sent request)) = "POST" /\
    Relay.valid_input (delivered (sent request)) = true /\
    (forall env up,
       Relay.reply (Relay.generate env up (delivered (sent request)))
         <> Some Relay.missing_input) /\
    Relay.text_of_parts (Relay.request_body (delivered (sent request))) =
      [JStr (if String.eqb text "" then Relay.default_prompt else text)].
Proof.
  intros Hflag Htext Hgo.
  eexists. split; [apply accepted_request; eassumption |]. simpl.
  assert (Hvalid :
    Relay.method (delivered (match attachedImageFile st with
                             | Some file => FormData text file
                             | None => JsonData (JObj [("prompt", JStr text)])
                             end)) = "POST" /\
    Relay.valid_input (delivered (match attachedImageFile st with
                                  | Some file => FormData text file
                                  | None => JsonData (JObj [("prompt", JStr text)])
                                  end)) = true).
  { destruct (attachedImageFile st) as [file |]; [split; reflexivity |].
    destruct Hgo as [Hne | [? [=]]]. split; [reflexivity |].
    unfold Relay.valid_input, Relay.prompt_of. simpl.
    destruct (String.eqb_spec text ""); [contradiction | reflexivity]. }
  destruct Hvalid as [Hm Hv].
  split; [exact Hm |]. split; [exact Hv |].
  split; [intros env up; apply valid_not_missing; assumption |].
  destruct (attachedImageFile st) as [file |].
  - unfold Relay.request_body, Relay.text_of_parts, Relay.parts_of. simpl.
    unfold js_or. simpl. destruct (String.eqb text ""); reflexivity.
  - destruct Hgo as [Hne | [? [=]]].
    unfold Relay.request_body, Relay.text_of_parts, Relay.parts_of, Relay.prompt_of. simpl.
    destruct (String.eqb_spec text ""); [contradiction | reflexivity].
Qed.

End EndToEnd.

(** ** The typing effect among other events *)

Section ClientInterleaving.
Import ChatClient ClientVocabulary.

Variable marked_parse : string -> string.
Variable marked_type_error : JsVal -> string.
Variable image_input_in_form : bool.
Variable document : Document.

Local Abbreviation handleOutgoingMessage :=
  (ChatClient.handleOutgoingMessage image_input_in_form).
Local Abbreviation settle := (ChatClient.settle marked_parse marked_type_error document).
Local Abbreviation tick := (ChatClient.tick document).
Local Abbreviation catch := (ChatClient.catch document).
Local Abbreviation step :=
  (ChatClient.step marked_parse marked_type_error image_input_in_form document).
Local Abbreviation run :=
  (ChatClient.run marked_parse marked_type_error image_input_in_form document).
Local Abbreviation reachable :=
  (ChatClient.reachable marked_parse marked_type_error image_input_in_form document).

Lemma grows_refl (st : State) : grows st st.
Proof. grown. Qed.

Lemma handleOutgoingMessage_grows (p : option string) (st : State) :
  grows st (handleOutgoingMessage (set_prompt p st)).
Proof.
  unfold ChatClient.handleOutgoingMessage, processPrompt, reset_form.
  destruct (_ || _); [grown |].
  destruct (attachedImageFile (set_isResponseGenerating true (set_prompt p st)))
    eqn:Ha; simpl in Ha |- *; rewrite ?Ha; destruct image_input_in_form; simpl; grown.
Qed.

Lemma settle_grows (i : nat) (settled : FetchResult) (st : State) :
  grows st (settle i settled st).
Proof.
  unfold ChatClient.settle.
  destruct (requests st !! i) as [request |]; [| apply grows_refl].
  destruct (first_then settled) as [e | data];
    [unfold ChatClient.catch, remove_loading, update; simpl; look; grown |].
  unfold second_then, decorate, remove_loading. simpl.
  destruct (truthy (reply_text data)); simpl;
    [| unfold remove_loading, update; simpl; look; grown].
  destruct (reply_text data) as [| | | | T | |]; simpl;
    try (unfold remove_loading, update; simpl; look; grown).
  destruct (loading_elsewhere document (lookups st)); simpl;
    (destruct (attachedImageFile st) eqn:Ha; simpl; rewrite ?Ha; simpl;
     [destruct (decoration_error document (S (lookups st))); simpl |]);
    rewrite ?Ha; unfold remove_loading, update; simpl; look; grown.
Qed.

Lemma step_grows (ev : Event) (st : State) :
  (forall interval, ev <> Tick interval) -> grows st (step ev st).
Proof.
  intros Hev.
  destruct ev as [value | | text | files | | | i settled | interval | confirmed]; simpl.
  - grown.
  - apply handleOutgoingMessage_grows.
  - apply handleOutgoingMessage_grows.
  - destruct files; grown.
  - destruct (imagePreview st); grown.
  - destruct (loadingTimers st); grown.
  - apply settle_grows.
  - destruct (Hev interval). reflexivity.
  - destruct confirmed; grown.
Qed.

Lemma grows_bounds (st st' : State) :
  grows st st' ->
  nextElement st <= nextElement st' /\ nextInterval st <= nextInterval st'.
Proof. intros (He & Hi & _). split; assumption. Qed.

Lemma grows_identities (st st' : State) :
  grows st st' -> identities_ok st -> identities_ok st'.
Proof.
  intros (Hbe & Hbi & _ & Hnew & _) Hok interval t Hl.
  destruct (Hnew interval t Hl) as [Hold | Hfresh]; [| lia].
  destruct (Hok interval t Hold). lia.
Qed.

(** A handler that only grows the page leaves a running typing effect and
    its element alone. *)
Lemma grows_apart (st st' : State) (interval div : nat) :
  grows st st' -> identities_ok st -> apart interval div st ->
  apart interval div st' /\
  intervals st' !! interval = intervals st !! interval /\
  elements st' !! div = elements st !! div.
Proof.
  intros (Hbe & Hbi & Hel & Hnew & Hint) Hok (Hi & Hd & Hothers).
  split; [| split; [apply Hint, Hi | apply Hel, Hd]].
  split; [lia |]. split; [lia |].
  intros other t Hne Hl.
  destruct (Hnew other t Hl) as [Hold | Hfresh]; [| lia].
  apply (Hothers other t Hne Hold).
Qed.

(** What one firing of an interval callback touches. *)
Lemma tick_summary (interval : nat) (st : State) :
  match intervals st !! interval with
  | None => tick interval st = st
  | Some t =>
      nextElement (tick interval st) = nextElement st /\
      nextInterval (tick interval st) = nextInterval st /\
      (exists g, elements (tick interval st) =
                   alter g (incomingMessageDiv t) (elements st)) /\
      (intervals (tick interval st) = delete interval (intervals st) \/
       exists t', intervals (tick interval st) = <[interval := t']> (intervals st) /\
                  incomingMessageDiv t' = incomingMessageDiv t)
  end.
Proof.
  destruct (intervals st !! interval) as [t |] eqn:Hi; [| apply tick_stopped, Hi].
  unfold ChatClient.tick, finish_if_done, decorate, reveal_word, update. rewrite Hi. simpl.
  rewrite lookup_insert_eq. cbn [currWordIndex words incomingMessageDiv parsedText].
  destruct (_ =? _)%nat; simpl.
  - destruct (decoration_error document (lookups st)); simpl;
      (split; [reflexivity |]); (split; [reflexivity |]);
      (split; [eexists; rewrite !alter_alter_eq; reflexivity
              | left; apply delete_insert_eq]).
  - split; [reflexivity |]. split; [reflexivity |]. split.
    + eexists. reflexivity.
    + right. eexists. split; reflexivity.
Qed.

Lemma tick_identities (interval : nat) (st : State) :
  identities_ok st -> identities_ok (tick interval st).
Proof.
  intros Hok. pose proof (tick_summary interval st) as Hs.
  destruct (intervals st !! interval) as [t |] eqn:Hi; [| rewrite Hs; exact Hok].
  destruct Hs as (He & Hn & _ & Hint). destruct (Hok interval t Hi) as [Hlt Hdiv].
  intros other t2 Hl. rewrite He, Hn.
  destruct Hint as [Heq | (t' & Heq & Hd)]; rewrite Heq in Hl.
  - apply lookup_delete_Some in Hl as [_ Hl]. apply (Hok other t2 Hl).
  - apply lookup_insert_Some in Hl as [[<- <-] | [_ Hl]].
    + split; [exact Hlt | rewrite Hd; exact Hdiv].
    + apply (Hok other t2 Hl).
Qed.

(** The callback of another interval leaves this one and its element
    alone. *)
Lemma tick_apart_other (other interval div : nat) (st : State) :
  other <> interval -> apart interval div st ->
  apart interval div (tick other st) /\
  intervals (tick other st) !! interval = intervals st !! interval /\
  elements (tick other st) !! div = elements st !! div.
Proof.
  intros Hne (Hi & Hd & Hothers). pose proof (tick_summary other st) as Hs.
  destruct (intervals st !! other) as [t |] eqn:Hl;
    [| rewrite Hs; repeat split; assumption].
  destruct Hs as (He & Hn & (g & Hel) & Hint).
  pose proof (Hothers other t Hne Hl) as Hdiv.
  assert (Hin : intervals (tick other st) !! interval = intervals st !! interval).
  { destruct Hint as [-> | (t' & -> & _)];
      [apply lookup_delete_ne | apply lookup_insert_ne]; exact Hne. }
  split; [| split; [exact Hin | rewrite Hel; apply lookup_alter_ne; exact Hdiv]].
  split; [rewrite Hn; exact Hi |]. split; [rewrite He; exact Hd |].
  intros o t2 Hno Hl2.
  destruct Hint as [Heq | (t' & Heq & Hd')]; rewrite Heq in Hl2.
  - apply lookup_delete_Some in Hl2 as [_ Hl2]. apply (Hothers o t2 Hno Hl2).
  - apply lookup_insert_Some in Hl2 as [[<- <-] | [_ Hl2]].
    + rewrite Hd'. exact Hdiv.
    + apply (Hothers o t2 Hno Hl2).
Qed.

Lemma tick_apart_own (interval div : nat) (st : State) :
  apart interval div st -> apart interval div (tick interval st).
Proof.
  intros (Hi & Hd & Hothers). pose proof (tick_summary interval st) as Hs.
  destruct (intervals st !! interval) as [t |] eqn:Hl;
    [| rewrite Hs; repeat split; assumption].
  destruct Hs as (He & Hn & _ & Hint).
  split; [rewrite Hn; exact Hi |]. split; [rewrite He; exact Hd |].
  intros o t2 Hno Hl2. apply (Hothers o t2 Hno).
  destruct Hint as [Heq | (t' & Heq & _)]; rewrite Heq in Hl2.
  - apply lookup_delete_Some in Hl2 as [_ Hl2]. exact Hl2.
  - rewrite lookup_insert_ne in Hl2 by congruence. exact Hl2.
Qed.

Lemma tick_or_not (ev : Event) :
  (exists interval, ev = Tick interval) \/ (forall interval, ev <> Tick interval).
Proof. destruct ev; try (right; discriminate). left. eauto. Qed.

Lemma step_identities (ev : Event) (st : State) :
  identities_ok st -> identities_ok (step ev st).
Proof.
  intros Hok. destruct (tick_or_not ev) as [[interval ->] | Hno].
  - apply tick_identities, Hok.
  - apply (grows_identities st); [| exact Hok]. apply step_grows, Hno.
Qed.

Lemma reachable_identities (st : State) : reachable st -> identities_ok st.
Proof.
  induction 1 as [| ev st _ IH]; [| apply step_identities, IH].
  intros interval t Hl. simpl in Hl. rewrite lookup_empty in Hl. discriminate Hl.
Qed.

(** Any event other than this interval's own callback (or any event at all
    once the interval is cleared) leaves the interval and its element as
    they are. *)
Lemma step_frame (ev : Event) (st : State) (interval div : nat) :
  identities_ok st -> apart interval div st ->
  is_tick interval ev = false \/ intervals st !! interval = None ->
  apart interval div (step ev st) /\
  intervals (step ev st) !! interval = intervals st !! interval /\
  elements (step ev st) !! div = elements st !! div.
Proof.
  intros Hok Hap Hev.
  destruct (tick_or_not ev) as [[other ->] | Hno].
  - destruct (decide (other = interval)) as [-> | Hne].
    + destruct Hev as [Hev | Hnone]; [simpl in Hev; rewrite Nat.eqb_refl in Hev; discriminate |].
      simpl. rewrite (tick_stopped document interval st Hnone).
      split; [exact Hap | split; reflexivity].
    + apply tick_apart_other; assumption.
  - apply grows_apart; [| assumption | assumption].
    apply step_grows, Hno.
Qed.

Lemma count_ticks_cons (interval : nat) (ev : Event) (evs : list Event) :
  count_ticks interval (ev :: evs) =
    (if is_tick interval ev then 1 else 0) + count_ticks interval evs.
Proof.
  unfold count_ticks. destruct (is_tick interval ev) eqn:He.
  - rewrite filter_cons_True by exact He. reflexivity.
  - rewrite filter_cons_False by (rewrite He; discriminate). reflexivity.
Qed.

Lemma is_tick_true (interval : nat) (ev : Event) :
  is_tick interval ev = true -> ev = Tick interval.
Proof.
  destruct ev; simpl; try discriminate.
  intros H. apply Nat.eqb_eq in H. congruence.
Qed.

(** Once finished, the effect stays finished: nothing writes to the element
    again. *)
Lemma run_typed (evs : list Event) (st : State) (interval div : nat) (parsed : string) :
  identities_ok st -> apart interval div st -> typed interval div parsed st ->
  typed interval div parsed (run evs st).
Proof.
  revert st. induction evs as [| ev evs IH]; intros st Hok Hap Ht; [exact Ht |].
  simpl. destruct Ht as [Hnone (m & Hm & Htext)].
  destruct (step_frame ev st interval div Hok Hap (or_intror Hnone)) as (Hap' & Hi' & He').
  apply IH; [apply step_identities, Hok | exact Hap' |].
  split; [rewrite Hi'; exact Hnone |]. exists m. rewrite He'. split; assumption.
Qed.

Lemma run_revealing (ws : list string) (parsed : string) (interval div : nat)
    (evs : list Event) (st : State) (j : nat) :
  identities_ok st -> apart interval div st ->
  revealing interval div ws parsed j st -> j < length ws ->
  (j + count_ticks interval evs < length ws ->
   revealing interval div ws parsed (j + count_ticks interval evs) (run evs st)) /\
  (length ws <= j + count_ticks interval evs ->
   typed interval div parsed (run evs st)).
Proof.
  revert st j. induction evs as [| ev evs IH]; intros st j Hok Hap Hrev Hj.
  - unfold count_ticks. simpl. rewrite Nat.add_0_r. split; [intros _; exact Hrev | lia].
  - rewrite count_ticks_cons. simpl.
    destruct (is_tick interval ev) eqn:Hev.
    + apply is_tick_true in Hev. subst ev. simpl.
      replace (j + S (count_ticks interval evs))
        with (S j + count_ticks interval evs) by lia.
      pose proof (tick_identities interval st Hok) as Hok'.
      pose proof (tick_apart_own interval div st Hap) as Hap'.
      destruct (decide (S j < length ws)) as [Hlt | Hge].
      * destruct (tick_continues document interval div ws parsed j st Hrev Hlt) as [Hrev' _].
        apply IH; assumption.
      * assert (Hlast : S j = length ws) by lia.
        destruct (tick_finishes document interval div ws parsed j st Hrev Hlast) as (Hn & _ & Hm).
        split; [lia |]. intros _.
        apply run_typed; [assumption | assumption | split; assumption].
    + simpl (0 + _).
      destruct (step_frame ev st interval div Hok Hap (or_introl Hev))
        as (Hap' & Hi' & He').
      apply IH; [apply step_identities, Hok | exact Hap' | | exact Hj].
      destruct Hrev as [Hi (m & Hm & Hp)].
      split; [rewrite Hi'; exact Hi |]. exists m. rewrite He'. split; assumption.
Qed.

(** A new typing effect is apart from every interval that was running. *)
Lemma settle_starts_apart (st : State) (i : nat) (request : Pending)
    (r : Response) (data : JsVal) (T : string) :
  identities_ok st ->
  requests st !! i = Some request ->
  ok r = true -> response_json r = Json data ->
  reply_text data = JStr T -> T <> "" ->
  attachedImageFile st = None ->
  apart (nextInterval st) (nextElement st) (settle i (Resolved r) st).
Proof.
  intros Hok Hreq Hokr Hjson Htext HT Ha.
  unfold apart, ChatClient.settle. rewrite Hreq.
  unfold first_then. rewrite Hokr, Hjson. simpl.
  unfold second_then, decorate, remove_loading. rewrite Htext.
  replace (truthy (JStr T)) with true
    by (simpl; destruct (String.eqb_spec T ""); [contradiction | reflexivity]).
  simpl. destruct (loading_elsewhere document (lookups st)); simpl; rewrite Ha; simpl;
    rewrite Ha; simpl;
    (split; [lia |]); (split; [lia |]);
    intros other t Hne Hl; rewrite lookup_insert_ne in Hl by congruence;
    destruct (Hok other t Hl); lia.
Qed.

(** X22: whatever else happens while a reply is being typed (typing in the
    field, submits, image picks, late timers, other replies, clearing the
    history): after k firings of its interval the message holds exactly the
    first k tokens of the reply, and from the last firing on it holds the
    parsed markup and its interval is gone. *)
Theorem reveal_survives_interleaving (st : State) (i : nat) (request : Pending)
    (r : Response) (data : JsVal) (T : string) (evs : list Event) :
  reachable st ->
  requests st !! i = Some request ->
  ok r = true -> response_json r = Json data ->
  reply_text data = JStr T -> T <> "" ->
  attachedImageFile st = None ->
  let interval := nextInterval st in
  let div := nextElement st in
  let k := count_ticks interval evs in
  let now := run evs (settle i (Resolved r) st) in
  (k < length (Str.split T) ->
   intervals now !! interval =
     Some {| words := Str.split T; currWordIndex := k; incomingMessageDiv := div;
             parsedText := marked_parse T |} /\
   exists m, elements now !! div = Some m /\
             pieces (text m) = tokens (take k (Str.split T))) /\
  (length (Str.split T) <= k ->
   intervals now !! interval = None /\
   exists m, elements now !! div = Some m /\ text m = Html (marked_parse T)).
Proof.
  intros Hr Hreq Hokr Hjson Htext HT Ha interval div k now.
  pose proof (reachable_identities st Hr) as Hok.
  destruct (settle_starts_typing marked_parse marked_type_error document st i request r data T
              Hreq Hokr Hjson Htext HT Ha) as [H0 _].
  pose proof (settle_starts_apart st i request r data T Hok Hreq Hokr Hjson Htext HT Ha)
    as Hap.
  assert (Hok' : identities_ok (settle i (Resolved r) st)).
  { apply (grows_identities st); [apply settle_grows | exact Hok]. }
  pose proof (split_length T) as Hn.
  apply (run_revealing (Str.split T) (marked_parse T) interval div evs _ 0 Hok' Hap H0).
  lia.
Qed.

End ClientInterleaving.

(** ** The further properties on sample inputs *)

Section MoreWitnesses.
Import Samples MoreSamples ChatClient ClientVocabulary.

Lemma get_is_not_post : Relay.method foreign_get <> "POST".
Proof. discriminate. Defined.

Lemma generate_answers_once_witness :
  Relay.method hello = "POST" /\
  (exists r, Relay.reply (Relay.generate env_with_key upstream_ok hello) = Some r) /\
  Relay.method foreign_get <> "POST" /\
  Relay.outbound (Relay.generate env_with_key upstream_ok foreign_get) = [].
Proof.
  pose proof (generate_answers_once env_with_key upstream_ok hello) as (Hr & _ & _).
  pose proof (generate_answers_once env_with_key upstream_ok foreign_get) as (_ & _ & Hn).
  exact (conj eq_refl (conj (Hr eq_refl) (conj get_is_not_post (Hn get_is_not_post)))).
Defined.

Lemma upstream_called_exactly_when_witness :
  Relay.method hello = "POST" /\
  Relay.outbound (Relay.generate env_with_key upstream_ok hello) =
    [Relay.upstream_call "k" (Relay.textRequest (JStr "Hello"))] /\
  Relay.outbound (Relay.generate env_without_key upstream_ok hello) = [].
Proof.
  exact (conj eq_refl
           (conj (upstream_called_exactly_when env_with_key upstream_ok hello eq_refl)
                 (upstream_called_exactly_when env_without_key upstream_ok hello eq_refl))).
Defined.

Lemma missing_input_iff_witness :
  Relay.method empty_prompt = "POST" /\
  Relay.valid_input empty_prompt = false /\
  Relay.reply (Relay.generate env_with_key upstream_ok empty_prompt) =
    Some Relay.missing_input.
Proof.
  exact (conj eq_refl (conj eq_refl
           (proj2 (missing_input_iff env_with_key upstream_ok empty_prompt eq_refl)
                  eq_refl))).
Defined.

Lemma exceptions_become_500_witness :
  Relay.method hello = "POST" /\ Relay.valid_input hello = true /\
  Relay.API_KEY env_with_key = Some "k" /\
  RelayReplies.upstream_exception upstream_down
    (Relay.upstream_call "k" (Relay.request_body hello)) = Some "fetch failed" /\
  Relay.reply (Relay.generate env_with_key upstream_down hello) =
    Some (RelayReplies.internal_error "fetch failed").
Proof.
  exact (conj eq_refl (conj eq_refl (conj eq_refl (conj eq_refl
           (proj1 (exceptions_become_500 env_with_key upstream_down hello "k"
                     "fetch failed" eq_refl eq_refl eq_refl sample_key_not_empty
                     eq_refl)))))).
Defined.

Lemma success_only_from_upstream_witness :
  Relay.method hello = "POST" /\
  Relay.reply (Relay.generate env_with_key upstream_ok hello) =
    Some {| Relay.status := 200; Relay.payload := Relay.JsonBody hi_there |} /\
  exists call resp B,
    Relay.outbound (Relay.generate env_with_key upstream_ok hello) = [call] /\
    upstream_ok call = Resolved resp /\ ok resp = true /\
    response_json resp = Json B /\ Relay.JsonBody hi_there = Relay.JsonBody B.
Proof.
  exact (conj eq_refl (conj eq_refl
           (success_only_from_upstream env_with_key upstream_ok hello
              {| Relay.status := 200; Relay.payload := Relay.JsonBody hi_there |}
              eq_refl eq_refl eq_refl))).
Defined.

Lemma config_echoes_key_witness :
  Relay.method foreign_get <> "OPTIONS" /\
  Relay.reply (Relay.serve env_with_key upstream_ok Relay.GetConfig foreign_get) =
    Some {| Relay.status := 200;
            Relay.payload := Relay.JsonBody (JObj [("API_KEY", JStr "k")]) |}.
Proof.
  exact (conj get_is_not_options
           (proj1 (config_echoes_key env_with_key upstream_ok foreign_get
                     get_is_not_options))).
Defined.

Lemma submit_accepted_witness :
  isResponseGenerating hello_typed = false /\
  Str.trim (promptInput hello_typed) = "Hello" /\
  chatList (on_submit true hello_typed) = [0] /\
  promptInput (on_submit true hello_typed) = "" /\
  requests (on_submit true hello_typed) = [hello_request].
Proof.
  pose proof (submit_accepted true hello_typed "Hello" eq_refl eq_refl
                (or_introl hello_not_empty)) as H.
  destruct H as (_ & _ & Hc & _ & Hp & _ & _ & Hr & _).
  exact (conj eq_refl (conj eq_refl (conj Hc (conj Hp Hr)))).
Defined.

Lemma blank_message_not_sent_witness :
  forallb Str.is_space (list_ascii_of_string (promptInput blank_typed)) = true /\
  attachedImageFile blank_typed = None /\
  on_submit true blank_typed = set_prompt (Some "") blank_typed.
Proof.
  exact (conj eq_refl (conj eq_refl
           (blank_message_not_sent true blank_typed eq_refl eq_refl))).
Defined.

Lemma failed_reply_shows_error_witness :
  requests hello_sent !! 0 = Some hello_request /\
  failure_of marked_error_stub (Rejected "Failed to fetch") = Some "Failed to fetch" /\
  let st' := settle marked_stub marked_error_stub plain_page 0 (Rejected "Failed to fetch") hello_sent in
  isResponseGenerating st' = false /\ chatHistory st' = [] /\
  elements st' !! 1 = Some (error_bubble "Failed to fetch").
Proof.
  pose proof (failed_reply_shows_error marked_stub marked_error_stub plain_page hello_sent 0
                hello_request (Rejected "Failed to fetch") "Failed to fetch"
                eq_refl eq_refl) as H.
  destruct H as (Hf & Hh & _ & _ & _ & He & _).
  exact (conj eq_refl (conj eq_refl (conj Hf (conj Hh He)))).
Defined.

Lemma cat_answer_not_empty : "Hi there" <> "".
Proof. discriminate. Defined.

Lemma image_reply_rendered_at_once_witness :
  requests picture_sent !! 0 = Some picture_request /\
  first_then hi_there_response = inr hi_there /\
  attachedImageFile picture_sent = Some cat_png /\
  (let st' := settle marked_stub marked_error_stub plain_page 0 hi_there_response
                picture_sent in
   isResponseGenerating st' = false /\ intervals st' = intervals picture_sent /\
   attachedImageFile st' = None /\ imagePreview st' = []) /\
  (let st' := settle marked_stub marked_error_stub bare_pre_page 0 hi_there_response
                picture_sent in
   isResponseGenerating st' = false /\ chatHistory st' = chatHistory picture_sent /\
   attachedImageFile st' = Some cat_png /\
   elements st' !! 2 = Some (error_bubble null_class_list)).
Proof.
  pose proof (image_reply_rendered_at_once marked_stub marked_error_stub plain_page
                picture_sent 0 picture_request hi_there_response hi_there "Hi there"
                cat_png eq_refl eq_refl eq_refl cat_answer_not_empty eq_refl) as H.
  pose proof (image_reply_rendered_at_once marked_stub marked_error_stub bare_pre_page
                picture_sent 0 picture_request hi_there_response hi_there "Hi there"
                cat_png eq_refl eq_refl eq_refl cat_answer_not_empty eq_refl) as H'.
  destruct H as (_ & _ & Hf & Hi & _ & Hm). destruct Hm as (_ & _ & Ha & Hp & _).
  destruct H' as (_ & _ & Hf' & _ & _ & Hm'). destruct Hm' as (_ & He & Hh & Ha' & _).
  exact (conj eq_refl (conj eq_refl (conj eq_refl
           (conj (conj Hf (conj Hi (conj Ha Hp)))
                 (conj Hf' (conj Hh (conj Ha' He))))))).
Defined.

Lemma history_append_only_witness :
  is_clear (Settle 0 hi_there_response) = false /\
  (chatHistory (step marked_stub marked_error_stub true plain_page (Settle 0 hi_there_response)
                  hello_sent) = chatHistory hello_sent \/
   exists i settled request data,
     Settle 0 hi_there_response = Settle i settled /\
     requests hello_sent !! i = Some request /\
     first_then settled = inr data /\
     exists image,
       chatHistory (step marked_stub marked_error_stub true plain_page (Settle 0 hi_there_response)
                      hello_sent) =
         chatHistory hello_sent ++
           [{| userMessage := userPrompt request; apiResponse := data;
               imageUrl := image |}]).
Proof.
  exact (conj eq_refl
           (history_append_only marked_stub marked_error_stub true plain_page
              (Settle 0 hi_there_response) hello_sent eq_refl)).
Defined.

Lemma busy_session_never_clears :
  Forall (fun ev => is_clear ev = false) busy_session.
Proof. repeat constructor. Defined.

Lemma one_request_at_a_time_witness :
  Forall (fun ev => is_clear ev = false) busy_session /\
  one_at_a_time (client_run busy_session init).
Proof.
  exact (conj busy_session_never_clears
           (one_request_at_a_time marked_stub marked_error_stub true plain_page busy_session
              busy_session_never_clears)).
Defined.

(** With a confirmed "delete chat" in between, two requests can be
    outstanding at once. *)
Example clear_lets_a_second_request_out :
  length (requests (client_run [TypeText "a"; Submit; DeleteChat true;
                                TypeText "b"; Submit] init)) = 2.
Proof. reflexivity. Qed.

Lemma late_reply_after_clear_witness :
  requests hello_sent !! 0 = Some hello_request /\
  first_then hi_there_response = inr hi_there /\
  reply_text hi_there = JStr "Hi there" /\
  let cleared := on_delete_chat true hello_sent in
  chatList cleared = [] /\ requests cleared = [hello_request] /\
  chatHistory (settle marked_stub marked_error_stub plain_page 0 hi_there_response cleared) =
    [{| userMessage := Some "Hello"; apiResponse := hi_there; imageUrl := None |}].
Proof.
  pose proof (late_reply_after_clear marked_stub marked_error_stub plain_page hello_sent 0
                hello_request hi_there_response hi_there "Hi there"
                eq_refl eq_refl eq_refl cat_answer_not_empty) as H.
  destruct H as (Hc & _ & _ & _ & _ & _ & Hr & _ & _ & _ & Hh).
  exact (conj eq_refl (conj eq_refl (conj eq_refl (conj Hc (conj Hr Hh))))).
Defined.

Lemma hello_sent_reachable :
  reachable marked_stub marked_error_stub true plain_page hello_sent.
Proof.
  exact (reachable_step marked_stub marked_error_stub true plain_page Submit _
           (reachable_step marked_stub marked_error_stub true plain_page (TypeText "Hello") _
              (reachable_init marked_stub marked_error_stub true plain_page))).
Defined.

Lemma hello_answered_reachable :
  reachable marked_stub marked_error_stub true plain_page
    (step marked_stub marked_error_stub true plain_page (Settle 0 hi_there_response) hello_sent).
Proof.
  exact (reachable_step marked_stub marked_error_stub true plain_page (Settle 0 hi_there_response) _
           hello_sent_reachable).
Defined.

Lemma history_well_stored_witness :
  reachable marked_stub marked_error_stub true plain_page
    (step marked_stub marked_error_stub true plain_page (Settle 0 hi_there_response) hello_sent) /\
  Forall well_stored
    (chatHistory
       (step marked_stub marked_error_stub true plain_page (Settle 0 hi_there_response) hello_sent)).
Proof.
  exact (conj hello_answered_reachable
           (proj1 (history_well_stored marked_stub marked_error_stub true plain_page _
                     hello_answered_reachable))).
Defined.

Lemma displayChatHistory_rebuilds_witness :
  reachable marked_stub marked_error_stub true plain_page
    (step marked_stub marked_error_stub true plain_page (Settle 0 hi_there_response) hello_sent) /\
  exists st',
    displayChatHistory marked_stub marked_error_stub plain_page
      (step marked_stub marked_error_stub true plain_page (Settle 0 hi_there_response) hello_sent)
      = Done st' /\
    length (chatList st') = 2 /\
    hideHeader st' = true.
Proof.
  destruct (displayChatHistory_rebuilds marked_stub marked_error_stub true plain_page _
              hello_answered_reachable)
    as [(st' & Hd & _ & Hl & _ & Hh) | (st' & k & e & _ & _ & He & _)].
  - exact (conj hello_answered_reachable (ex_intro _ st' (conj Hd (conj Hl Hh)))).
  - discriminate He.
Defined.

(** On a plain page the reply takes the place of the loading indicator; when
    the first element of class "loading" lies in the markup of a message,
    the indicator stays on the page, in front of the reply. *)
Example indicator_left_behind :
  chatList (client_run hello_answered init) = [0; 2] /\
  let st := ChatClient.run marked_stub marked_error_stub true stray_loading_page
              hello_answered init in
  chatList st = [0; 1; 2] /\ is_loading (elements st) 1 = true.
Proof. split; [reflexivity | split; reflexivity]. Qed.

Lemma accepted_submit_is_valid_for_relay_witness :
  isResponseGenerating hello_typed = false /\
  Str.trim (promptInput hello_typed) = "Hello" /\
  exists request,
    requests (on_submit true hello_typed) = requests hello_typed ++ [request] /\
    Relay.method (Wire.delivered upload_stub None (sent request)) = "POST" /\
    Relay.valid_input (Wire.delivered upload_stub None (sent request)) = true /\
    (forall env up,
       Relay.reply (Relay.generate env up (Wire.delivered upload_stub None (sent request)))
         <> Some Relay.missing_input) /\
    Relay.text_of_parts
      (Relay.request_body (Wire.delivered upload_stub None (sent request))) =
      [JStr "Hello"].
Proof.
  exact (conj eq_refl (conj eq_refl
           (accepted_submit_is_valid_for_relay upload_stub None true hello_typed "Hello"
              eq_refl eq_refl (or_introl hello_not_empty)))).
Defined.

Lemma reveal_survives_interleaving_witness :
  reachable marked_stub marked_error_stub true plain_page hello_sent /\
  requests hello_sent !! 0 = Some hello_request /\
  count_ticks 0 around_the_reveal = 2 /\
  let now := client_run around_the_reveal
               (settle marked_stub marked_error_stub plain_page 0 hi_there_response hello_sent) in
  intervals now !! 0 = None /\
  exists m, elements now !! 1 = Some m /\ text m = Html "<p>Hi there</p>".
Proof.
  pose proof (reveal_survives_interleaving marked_stub marked_error_stub true plain_page hello_sent 0
                hello_request hi_there_200 hi_there "Hi there" around_the_reveal
                hello_sent_reachable eq_refl eq_refl eq_refl eq_refl
                cat_answer_not_empty eq_refl) as H.
  exact (conj hello_sent_reachable (conj eq_refl (conj eq_refl (proj2 H (le_n 2))))).
Defined.

End MoreWitnesses.
